(** * vision60_control: the keyboard teleoperation node

    A shallow embedding of
    [vision60_control/vision60_control/keyboard_command_node.py] and the
    properties of its key-state tracker, velocity mapper, speed control,
    periodic publisher and mode/action requester.

    Python floats are IEEE 754 binary64 values; they are modelled by the
    Standard Library's [spec_float] with the binary64 parameters, so that
    rounding, signed zeros and NaN behave as they do in the interpreter.
    The set [pressed_keys] is a [gset string], the dict [key_last_seen] a
    [gmap string spec_float]. *)

From Stdlib Require Import ZArith String Ascii List.
From Stdlib Require Import SpecFloat PrimFloat FloatOps.
From stdpp Require Import base decidable option list gmap strings.

Set Warnings "-clear-no-such-hyp".

Local Open Scope Z_scope.
Local Open Scope string_scope.
Local Open Scope list_scope.

(** ** Binary64 arithmetic, as Python's [float] *)

Module F64.

Definition prec : Z := 53.
Definition emax : Z := 1024.

Definition add : spec_float → spec_float → spec_float := SFadd prec emax.
Definition sub : spec_float → spec_float → spec_float := SFsub prec emax.
Definition neg : spec_float → spec_float := SFopp.
Definition abs : spec_float → spec_float := SFabs.

(** [x < y], [x <= y] and [x > y] on floats: false whenever a NaN is
    involved. *)
Definition lt (x y : spec_float) : bool := SFltb x y.
Definition le (x y : spec_float) : bool := SFleb x y.
Definition gt (x y : spec_float) : bool := lt y x.

(** The literals of the source file, rounded to nearest as the parser does. *)
Definition zero : spec_float := S754_zero false.                          (* 0.0  *)
Definition one : spec_float := S754_finite false 4503599627370496 (-52).  (* 1.0  *)
Definition c0_05 : spec_float := S754_finite false 7205759403792794 (-57). (* 0.05 *)
Definition c0_1 : spec_float := S754_finite false 7205759403792794 (-56).  (* 0.1  *)
Definition c0_15 : spec_float := S754_finite false 5404319552844595 (-55). (* 0.15 *)
Definition c0_2 : spec_float := S754_finite false 7205759403792794 (-55).  (* 0.2  *)
Definition c0_5 : spec_float := S754_finite false 4503599627370496 (-53).  (* 0.5  *)
Definition c0_6 : spec_float := S754_finite false 5404319552844595 (-53).  (* 0.6  *)

(** Python's two-argument builtins: [min(a, b)] keeps [a] unless [b < a],
    [max(a, b)] keeps [a] unless [b > a]. *)
Definition py_min (a b : spec_float) : spec_float := if lt b a then b else a.
Definition py_max (a b : spec_float) : spec_float := if gt b a then b else a.

(** A value in the closed interval [0.0, 1.0]. *)
Definition in_unit (x : spec_float) : Prop := le zero x = true ∧ le x one = true.

End F64.

Abbreviation float := spec_float.

(** ** Messages, requests and the observable events of the node *)

(** [geometry_msgs.msg.Twist]: two vectors, every field 0.0 when created. *)
Record Vector3 := { x : float; y : float; z : float }.
Record Twist := { linear : Vector3; angular : Vector3 }.

Definition Vector3_new : Vector3 := {| x := F64.zero; y := F64.zero; z := F64.zero |}.
Definition Twist_new : Twist := {| linear := Vector3_new; angular := Vector3_new |}.

(** [EnsureMode.Request] and [EnsureMode.Response]. *)
Record Request := { field : string; valdes : Z }.
Record Response := { result : bool; result_str : string; val : Z }.

Inductive level := INFO | WARN | ERROR.

(** The texts handed to the logger; formatted values are kept as arguments. *)
Inductive message :=
  | Initialized                         (* "KeyboardControlNode initialized ..." *)
  | Help (speed : float)                (* the help banner with the current speed *)
  | SpeedChanged (speed : float)        (* "[SPEED] Speed changed ..." *)
  | ServiceUnavailable                  (* the ensure_mode service cannot be used *)
  | ServiceOk (text : string) (v : Z)   (* "[SERVICE OK] ..." *)
  | ServiceFail (text : string) (v : Z) (* "[SERVICE FAIL] ..." *)
  | ServiceError (text : string).       (* "[SERVICE ERROR] ..." *)

Inductive event :=
  | CreateTimer (period : float)        (* create_timer(period, timer_callback) *)
  | Publish (msg : Twist)               (* twist_cmd_pub.publish(msg) *)
  | Log (lvl : level) (msg : message)   (* get_logger().info / warn / error *)
  | CallAsync (req : Request).          (* ensure_mode_client.call_async(request) *)

(** ** The node object *)

Record Node := {
  pressed_keys : gset string;
  key_last_seen : gmap string float;
  vx : float;
  vy : float;
  vyaw : float;
  default_speed : float;
  speed : float
}.

Definition set_pressed_keys (ks : gset string) (self : Node) : Node :=
  {| pressed_keys := ks; key_last_seen := key_last_seen self;
     vx := vx self; vy := vy self; vyaw := vyaw self;
     default_speed := default_speed self; speed := speed self |}.

Definition set_key_last_seen (m : gmap string float) (self : Node) : Node :=
  {| pressed_keys := pressed_keys self; key_last_seen := m;
     vx := vx self; vy := vy self; vyaw := vyaw self;
     default_speed := default_speed self; speed := speed self |}.

Definition set_velocity (nvx nvy nvyaw : float) (self : Node) : Node :=
  {| pressed_keys := pressed_keys self; key_last_seen := key_last_seen self;
     vx := nvx; vy := nvy; vyaw := nvyaw;
     default_speed := default_speed self; speed := speed self |}.

Definition set_speed (v : float) (self : Node) : Node :=
  {| pressed_keys := pressed_keys self; key_last_seen := key_last_seen self;
     vx := vx self; vy := vy self; vyaw := vyaw self;
     default_speed := default_speed self; speed := v |}.

(** ** Methods run on the node: state, an event trace, and exceptions *)

Inductive exn := KeyboardInterrupt.

Inductive completion (A : Type) :=
  | Returned (a : A)
  | Raised (e : exn).
Arguments Returned {A} a.
Arguments Raised {A} e.

Definition Eff (A : Type) : Type := Node → completion A * Node * list event.

Definition eff_ret {A} (a : A) : Eff A := λ self, (Returned a, self, []).

Definition eff_bind {A B} (k : A → Eff B) (m : Eff A) : Eff B :=
  λ self,
    match m self with
    | (Returned a, self1, tr1) =>
        let '(r, self2, tr2) := k a self1 in (r, self2, tr1 ++ tr2)
    | (Raised e, self1, tr1) => (Raised e, self1, tr1)
    end.

#[global] Instance Eff_ret : MRet Eff := @eff_ret.
#[global] Instance Eff_bind : MBind Eff := @eff_bind.

Definition get : Eff Node := λ self, (Returned self, self, []).
Definition modify (f : Node → Node) : Eff unit := λ self, (Returned tt, f self, []).
Definition emit (e : event) : Eff unit := λ self, (Returned tt, self, [e]).
Definition raise {A} (e : exn) : Eff A := λ self, (Raised e, self, []).

(** Projections of a finished call. *)
Definition completion_of {A} (r : completion A * Node * list event) : completion A := r.1.1.
Definition node_of {A} (r : completion A * Node * list event) : Node := r.1.2.
Definition events_of {A} (r : completion A * Node * list event) : list event := r.2.

(** ** The methods of [KeyboardControlNode] *)

(** The key sent by Ctrl+C in raw mode, ["\x03"]. *)
Definition ctrl_c : string := String "003"%char EmptyString.

(** The tuple tested by [key in ("w", "a", "s", "d", "q", "e")]. *)
Definition movement_keys : list string := ["w"; "a"; "s"; "d"; "q"; "e"].

Definition print_help : Eff unit :=
  self ← get;
  emit (Log INFO (Help (speed self))).

(** [__init__]: every attribute is assigned, whatever the object held before. *)
Definition __init__ : Eff unit :=
  modify (λ _, {| pressed_keys := ∅; key_last_seen := ∅;
                  vx := F64.zero; vy := F64.zero; vyaw := F64.zero;
                  default_speed := F64.c0_2; speed := F64.c0_2 |});;
  emit (CreateTimer F64.c0_05);;
  print_help;;
  emit (Log INFO Initialized).

(** The object before [__init__] has run on it. *)
Definition blank : Node :=
  {| pressed_keys := ∅; key_last_seen := ∅;
     vx := F64.zero; vy := F64.zero; vyaw := F64.zero;
     default_speed := F64.zero; speed := F64.zero |}.

(** [KeyboardControlNode()]. *)
Definition KeyboardControlNode : Node := node_of (__init__ blank).

Definition timer_callback : Eff unit :=
  self ← get;
  let msg := Twist_new in
  let msg := {| linear := {| x := vx self; y := y (linear msg); z := z (linear msg) |};
                angular := angular msg |} in
  let msg := {| linear := {| x := x (linear msg); y := vy self; z := z (linear msg) |};
                angular := angular msg |} in
  let msg := {| linear := linear msg;
                angular := {| x := x (angular msg); y := y (angular msg); z := vyaw self |} |} in
  emit (Publish msg).

(** [call_ensure_mode(field, valdes)]. [service_ready] is what
    [wait_for_service(timeout_sec=1.0)] returns: whether the service became
    available within the wait bound. *)
Definition call_ensure_mode (service_ready : bool) (fld : string) (v : Z) : Eff unit :=
  if negb service_ready then
    emit (Log ERROR ServiceUnavailable)
  else
    let request := {| field := fld; valdes := v |} in
    emit (CallAsync request).

(** The done-callback [cb(fut)] registered on the future: [fut.result()]
    either raises (left, with the text of the exception) or returns a response. *)
Definition cb (fut : string + Response) : Eff unit :=
  match fut with
  | inr res =>
      if result res then emit (Log INFO (ServiceOk (result_str res) (val res)))
      else emit (Log WARN (ServiceFail (result_str res) (val res)))
  | inl e => emit (Log ERROR (ServiceError e))
  end.

(** The pure part of [update_velocity_state]: the three locals after the six
    tests, each later test overwriting the earlier one on its axis. *)
Definition velocity_of (keys : gset string) (spd : float) : float * float * float :=
  let vx := F64.zero in
  let vy := F64.zero in
  let vyaw := F64.zero in
  let vx := if decide ("w" ∈ keys) then spd else vx in
  let vx := if decide ("s" ∈ keys) then F64.neg spd else vx in
  let vy := if decide ("a" ∈ keys) then spd else vy in
  let vy := if decide ("d" ∈ keys) then F64.neg spd else vy in
  let vyaw := if decide ("q" ∈ keys) then spd else vyaw in
  let vyaw := if decide ("e" ∈ keys) then F64.neg spd else vyaw in
  (vx, vy, vyaw).

Definition update_velocity_state : Eff unit :=
  self ← get;
  let '(vx, vy, vyaw) := velocity_of (pressed_keys self) (speed self) in
  modify (set_velocity vx vy vyaw).

Definition adjust_speed (delta : float) : Eff unit :=
  self ← get;
  let new_speed := F64.add (speed self) delta in
  let new_speed := F64.py_max F64.zero (F64.py_min new_speed F64.one) in
  modify (set_speed new_speed);;
  self ← get;
  emit (Log INFO (SpeedChanged (speed self))).

(** The test of the first loop of the sweep on one key [k]: its last
    observation is more than 0.15 s old, or it has none. *)
Definition stale (self : Node) (current_time : float) (k : string) : bool :=
  match key_last_seen self !! k with
  | Some seen => F64.gt (F64.sub current_time seen) F64.c0_15
  | None => true
  end.

(** The first loop: [keys_to_remove] collects the stale keys of [pressed_keys]. *)
Definition keys_to_remove (self : Node) (current_time : float) : list string :=
  foldl (λ acc k, if stale self current_time k then acc ++ [k] else acc)
        [] (elements (pressed_keys self)).

(** The second loop: [discard] from the set and [pop(k, None)] from the dict. *)
Fixpoint remove_keys (ks : list string) : Eff unit :=
  match ks with
  | [] => mret tt
  | k :: ks =>
      modify (λ self, set_pressed_keys (pressed_keys self ∖ {[k]}) self);;
      modify (λ self, set_key_last_seen (delete k (key_last_seen self)) self);;
      remove_keys ks
  end.

(** The branch on the key that was read (the body of [if key:]). *)
Definition handle_key (key : string) (current_time : float) (service_ready : bool)
  : Eff unit :=
  if decide (key = "") then mret tt
  else if decide (key = ctrl_c) then raise KeyboardInterrupt
  else if decide (key ∈ movement_keys) then
    modify (λ self, set_pressed_keys ({[key]} ∪ pressed_keys self) self);;
    modify (λ self, set_key_last_seen (<[key := current_time]> (key_last_seen self)) self)
  else if decide (key = "[") then adjust_speed (F64.neg F64.c0_1)
  else if decide (key = "]") then adjust_speed F64.c0_1
  else if decide (key = "m") then call_ensure_mode service_ready "control_mode" 140
  else if decide (key = "n") then call_ensure_mode service_ready "control_mode" 180
  else if decide (key = "z") then call_ensure_mode service_ready "action" 0
  else if decide (key = "x") then call_ensure_mode service_ready "action" 1
  else if decide (key = "c") then call_ensure_mode service_ready "action" 2
  else if decide (key = "h") then print_help
  else mret tt.

(** The release detection that follows it. *)
Definition sweep (current_time : float) : Eff unit :=
  self ← get;
  remove_keys (keys_to_remove self current_time).

(** [keyboard_loop_once()], given what [get_key_nonblocking()] and
    [time.time()] return in it. *)
Definition keyboard_loop_once (key : string) (current_time : float) (service_ready : bool)
  : Eff unit :=
  handle_key key current_time service_ready;;
  sweep current_time;;
  update_velocity_state.

(** ** The loop of [main] *)

(** What [rclpy.spin_once(node, timeout_sec=0.0)] finds to run. *)
Inductive work :=
  | NoWork
  | TimerDue
  | FutureDone (fut : string + Response).

Definition spin_once (w : work) : Eff unit :=
  match w with
  | NoWork => mret tt
  | TimerDue => timer_callback
  | FutureDone fut => cb fut
  end.

(** One iteration of [while rclpy.ok()] with its observations. *)
Record iteration := {
  it_work : work;
  it_key : string;
  it_time : float;
  it_ready : bool
}.

Definition loop_body (it : iteration) : Eff unit :=
  spin_once (it_work it);;
  keyboard_loop_once (it_key it) (it_time it) (it_ready it).

Fixpoint loop (its : list iteration) : Eff unit :=
  match its with
  | [] => mret tt
  | it :: its => loop_body it;; loop its
  end.

(** The nodes the program can be in between two iterations. *)
Definition reachable (self : Node) : Prop :=
  ∃ its, completion_of (loop its KeyboardControlNode) = Returned tt
         ∧ node_of (loop its KeyboardControlNode) = self.

(** ** Observations used in the statements *)

(** The velocity vector held by the node. *)
Definition velocity (self : Node) : float * float * float := (vx self, vy self, vyaw self).

(** The speed after each of a series of [adjust_speed] calls. *)
Fixpoint speeds_after (deltas : list float) (self : Node) : list float :=
  match deltas with
  | [] => []
  | delta :: deltas =>
      let self' := node_of (adjust_speed delta self) in
      speed self' :: speeds_after deltas self'
  end.

(** [n] timer callbacks in a row. *)
Fixpoint ticks (n : nat) : Eff unit :=
  match n with
  | O => mret tt
  | S n => timer_callback;; ticks n
  end.

(** The requests sent to the remote service in a trace. *)
Definition requests_of (tr : list event) : list Request :=
  omap (λ e, match e with CallAsync req => Some req | _ => None end) tr.

(** The call made for each discrete key in [keyboard_loop_once], as the
    request it would send; no call for any other key. *)
Definition key_request (key : string) : list Request :=
  if decide (key = "m") then [{| field := "control_mode"; valdes := 140 |}]
  else if decide (key = "n") then [{| field := "control_mode"; valdes := 180 |}]
  else if decide (key = "z") then [{| field := "action"; valdes := 0 |}]
  else if decide (key = "x") then [{| field := "action"; valdes := 1 |}]
  else if decide (key = "c") then [{| field := "action"; valdes := 2 |}]
  else [].

(** The message published for a velocity vector. *)
Definition twist_of (v : float * float * float) : Twist :=
  {| linear := {| x := v.1.1; y := v.1.2; z := F64.zero |};
     angular := {| x := F64.zero; y := F64.zero; z := v.2 |} |}.

(** ** Scenarios *)

(** An iteration in which no callback is due, [key] is read at time [t] and
    the remote service is available. *)
Definition poll (key : string) (t : float) : iteration :=
  {| it_work := NoWork; it_key := key; it_time := t; it_ready := true |}.

(** The node after the given iterations, from a fresh node. *)
Definition after (its : list iteration) : Node := node_of (loop its KeyboardControlNode).

(** "w" read once at time 0.0. *)
Definition holding_w : Node := after [poll "w" F64.zero].

(** All six movement keys read at time 0.0. *)
Definition holding_all : Node :=
  after [poll "w" F64.zero; poll "s" F64.zero; poll "a" F64.zero;
         poll "d" F64.zero; poll "q" F64.zero; poll "e" F64.zero].

(** "]" read, then "w", both at time 0.0. *)
Definition holding_w_faster : Node := after [poll "]" F64.zero; poll "w" F64.zero].

(** "s" read at time 0.0, then "w" at time 1.0, by when "s" has gone stale. *)
Definition holding_w_after_s : Node := after [poll "s" F64.zero; poll "w" F64.one].

(** What holds of the node between two iterations of the loop. *)
Record invariant (self : Node) : Prop := {
  inv_movement : ∀ k, k ∈ pressed_keys self → k ∈ movement_keys;
  inv_seen : ∀ k, k ∈ pressed_keys self → is_Some (key_last_seen self !! k);
  inv_speed : F64.in_unit (speed self);
  inv_velocity : velocity self = velocity_of (pressed_keys self) (speed self)
}.

(** ** Observations over whole runs *)

(** The commands published in a trace. *)
Definition publishes_of (tr : list event) : list Twist :=
  omap (λ e, match e with Publish msg => Some msg | _ => None end) tr.

(** The timer firings among the iterations. *)
Definition timer_due (it : iteration) : bool :=
  match it_work it with
  | TimerDue => true
  | _ => false
  end.

Definition timer_firings (its : list iteration) : nat :=
  length (filter (λ it, timer_due it) its).

(** ** One key on its own *)

(** The last-seen entry of the single key [k], followed through an
    iteration without looking at any other key: the time of the iteration
    when it reads [k] as a movement key; otherwise the entry it had, unless
    that is more than 0.15 s old. *)
Definition track_step (k : string) (entry : option float) (it : iteration) : option float :=
  if decide (it_key it = k ∧ k ∈ movement_keys) then Some (it_time it)
  else match entry with
       | Some seen =>
           if F64.gt (F64.sub (it_time it) seen) F64.c0_15 then None else Some seen
       | None => None
       end.

Definition track (k : string) (its : list iteration) : option float :=
  foldl (track_step k) None its.

(** * Properties *)

(** ** The order on binary64 values *)

Section FloatOrder.

(** The literals are the binary64 values the decimal constants denote. *)
Set Warnings "-inexact-float".
Lemma literals :
  Prim2SF 0.0 = F64.zero ∧ Prim2SF 1.0 = F64.one ∧ Prim2SF 0.05 = F64.c0_05 ∧
  Prim2SF 0.1 = F64.c0_1 ∧ Prim2SF 0.15 = F64.c0_15 ∧ Prim2SF 0.2 = F64.c0_2 ∧
  Prim2SF 0.5 = F64.c0_5 ∧ Prim2SF 0.6 = F64.c0_6.
Proof. repeat split; vm_compute; reflexivity. Qed.
Set Warnings "+inexact-float".

Lemma compare_cont_Eq_antisym (p q : positive) :
  Pos.compare_cont Eq q p = CompOpp (Pos.compare_cont Eq p q).
Proof. exact (Pos.compare_antisym p q). Qed.

Lemma SFcompare_antisym (a b : float) :
  SFcompare b a = CompOpp <$> SFcompare a b.
Proof.
  destruct a as [sa|sa| |sa ma ea], b as [sb|sb| |sb mb eb]; simpl;
    try reflexivity; try (destruct sa; reflexivity); try (destruct sb; reflexivity);
    try (destruct sa, sb; reflexivity).
  destruct sa, sb; simpl; try reflexivity;
    rewrite (Z.compare_antisym ea eb); destruct (ea ?= eb)%Z; simpl;
    try reflexivity; rewrite compare_cont_Eq_antisym;
    destruct (Pos.compare_cont Eq ma mb); reflexivity.
Qed.

Lemma lt_le (a b : float) : F64.lt a b = true → F64.le a b = true.
Proof.
  unfold F64.lt, F64.le, SFltb, SFleb.
  destruct (SFcompare a b) as [[]|]; congruence.
Qed.

Lemma SFcompare_None (a b : float) :
  SFcompare a b = None → a = S754_nan ∨ b = S754_nan.
Proof.
  destruct a as [sa|sa| |sa ma ea], b as [sb|sb| |sb mb eb]; simpl;
    intros H; try discriminate H; auto.
Qed.

(** [a < b] holds, so [b] is a number; if moreover [not (c < b)], [b <= c]. *)
Lemma not_lt_le (a b c : float) :
  c ≠ S754_nan → F64.lt a b = true → F64.lt c b = false → F64.le b c = true.
Proof.
  unfold F64.lt, F64.le, SFltb, SFleb. intros Hc Hab Hcb.
  rewrite (SFcompare_antisym c b).
  destruct (SFcompare c b) as [[]|] eqn:Hcmp; simpl; try congruence.
  apply SFcompare_None in Hcmp as [->| ->]; [done|].
  destruct a; discriminate.
Qed.

Lemma le_refl_nonneg (s : float) : F64.le F64.zero s = true → F64.le (F64.abs s) s = true.
Proof.
  unfold F64.le, SFleb.
  destruct s as [b|[]| |[] m e]; simpl; try congruence.
  rewrite Z.compare_refl, Pos.compare_cont_refl. reflexivity.
Qed.

Lemma abs_neg (s : float) : F64.abs (F64.neg s) = F64.abs s.
Proof. destruct s; reflexivity. Qed.

Lemma abs_le_one (s : float) :
  F64.le F64.zero s = true → F64.le s F64.one = true → F64.le (F64.abs s) F64.one = true.
Proof.
  unfold F64.le, SFleb, F64.abs, F64.zero.
  destruct s as [b|[]| |[] m e]; intros H0 H1;
    try exact H1; try discriminate H0; discriminate H1.
Qed.

Lemma neg_lt_zero (s : float) : F64.lt F64.zero s = true → F64.lt (F64.neg s) F64.zero = true.
Proof.
  unfold F64.lt, SFltb.
  destruct s as [b|[]| |[] m e]; simpl; congruence.
Qed.

(** The clamp of [adjust_speed] lands in [0.0, 1.0] whatever it is given,
    NaN and the infinities included. *)
Lemma clamp_in_unit (v : float) :
  F64.in_unit (F64.py_max F64.zero (F64.py_min v F64.one)).
Proof.
  unfold F64.py_max, F64.py_min, F64.gt.
  destruct (F64.lt F64.one v) eqn:H1.
  - split; vm_compute; reflexivity.
  - destruct (F64.lt F64.zero v) eqn:H0.
    + split; [by apply lt_le|].
      by apply (not_lt_le F64.zero).
    + split; vm_compute; reflexivity.
Qed.

End FloatOrder.

(** ** The mode/action requester *)

(** C5: when [wait_for_service] reports the service unavailable, the call
    returns having logged exactly one error and nothing else: no request is
    sent, nothing is queued for later, and the node (velocity, speed, held
    keys) is as before. *)
Theorem call_ensure_mode_unavailable (fld : string) (v : Z) (self : Node) :
  let r := call_ensure_mode false fld v self in
  completion_of r = Returned tt
  ∧ events_of r = [Log ERROR ServiceUnavailable]
  ∧ (∀ req, CallAsync req ∉ events_of r)
  ∧ node_of r = self.
Proof.
  cbn. repeat split.
  intros req Hin. apply list_elem_of_singleton in Hin. discriminate.
Qed.

(** ** Running the methods *)

Ltac run_eff :=
  unfold mbind, mret, Eff_bind, Eff_ret, eff_bind, eff_ret, get, modify, emit, raise;
  cbn [completion_of node_of events_of fst snd app].

Lemma node_of_triple {A} (c : completion A) (s : Node) (tr : list event) :
  node_of (c, s, tr) = s.
Proof. reflexivity. Qed.

Lemma set_speed_same (self : Node) : set_speed (speed self) self = self.
Proof. by destruct self. Qed.

Lemma update_velocity_state_run (self : Node) :
  update_velocity_state self =
    (Returned tt,
     set_velocity (velocity_of (pressed_keys self) (speed self)).1.1
                  (velocity_of (pressed_keys self) (speed self)).1.2
                  (velocity_of (pressed_keys self) (speed self)).2 self,
     []).
Proof.
  unfold update_velocity_state. run_eff.
  by destruct (velocity_of _ _) as [[a b] c].
Qed.

Lemma adjust_speed_run (delta : float) (self : Node) :
  adjust_speed delta self =
    (Returned tt,
     set_speed (F64.py_max F64.zero (F64.py_min (F64.add (speed self) delta) F64.one)) self,
     [Log INFO (SpeedChanged
        (F64.py_max F64.zero (F64.py_min (F64.add (speed self) delta) F64.one)))]).
Proof. reflexivity. Qed.

Lemma timer_callback_run (self : Node) :
  timer_callback self = (Returned tt, self, [Publish (twist_of (velocity self))]).
Proof. reflexivity. Qed.

Lemma spin_once_run (w : work) (self : Node) :
  ∃ tr, spin_once w self = (Returned tt, self, tr).
Proof.
  destruct w as [| |[e|res]]; cbn; eauto.
  destruct (result res); eauto.
Qed.

(** The second loop of the sweep, field by field. *)
Lemma remove_keys_run (ks : list string) (self : Node) :
  ∃ self', remove_keys ks self = (Returned tt, self', [])
    ∧ pressed_keys self' = pressed_keys self ∖ list_to_set ks
    ∧ (∀ k, key_last_seen self' !! k =
            if decide (k ∈ ks) then None else key_last_seen self !! k)
    ∧ velocity self' = velocity self
    ∧ speed self' = speed self
    ∧ default_speed self' = default_speed self.
Proof.
  revert self. induction ks as [|k0 ks IH]; intros self.
  - exists self. split_and!; try done. set_solver.
  - cbn [remove_keys]. run_eff.
    match goal with
    | |- context [remove_keys ks ?n] =>
        destruct (IH n) as (self' & Hrun & Hp & Hl & Hv & Hs & Hd)
    end.
    exists self'. rewrite Hrun. cbn in Hp, Hl, Hv, Hs, Hd. split_and!; try done.
    + rewrite Hp. cbn. set_solver.
    + intros k. rewrite Hl.
      destruct (decide (k = k0)) as [->|Hne].
      * rewrite lookup_delete_eq.
        repeat case_decide; try done; exfalso; set_solver.
      * rewrite lookup_delete_ne by done.
        repeat case_decide; try done; exfalso; set_solver.
Qed.

(** The first loop collects exactly the stale keys of the set. *)
Lemma keys_to_remove_spec (self : Node) (t : float) (k : string) :
  k ∈ keys_to_remove self t ↔ k ∈ pressed_keys self ∧ stale self t k = true.
Proof.
  unfold keys_to_remove. rewrite <- elem_of_elements.
  assert (∀ l acc,
    k ∈ foldl (λ acc k, if stale self t k then acc ++ [k] else acc) acc l
    ↔ k ∈ acc ∨ (k ∈ l ∧ stale self t k = true)) as Hgen.
  { induction l as [|a l IH]; intros acc; cbn [foldl].
    - rewrite elem_of_nil. tauto.
    - rewrite IH, elem_of_cons. destruct (stale self t a) eqn:Ha.
      + rewrite elem_of_app, list_elem_of_singleton. intuition (subst; auto).
      + intuition (subst; auto; congruence). }
  rewrite Hgen, elem_of_nil. tauto.
Qed.

(** The sweep followed by the velocity update, on the node [s1] left by
    the branch on the key. *)
Lemma sweep_update_run (t : float) (s1 : Node) :
  ∃ s', (sweep t;; update_velocity_state) s1 = (Returned tt, s', [])
    ∧ (∀ k, k ∈ pressed_keys s' ↔ k ∈ pressed_keys s1 ∧ stale s1 t k = false)
    ∧ (∀ k, key_last_seen s' !! k =
            if decide (k ∈ pressed_keys s1 ∧ stale s1 t k = true) then None
            else key_last_seen s1 !! k)
    ∧ speed s' = speed s1
    ∧ default_speed s' = default_speed s1
    ∧ velocity s' = velocity_of (pressed_keys s') (speed s').
Proof.
  destruct (remove_keys_run (keys_to_remove s1 t) s1)
    as (s2 & Hrun & Hp & Hl & _ & Hs & Hd).
  exists (set_velocity (velocity_of (pressed_keys s2) (speed s2)).1.1
                       (velocity_of (pressed_keys s2) (speed s2)).1.2
                       (velocity_of (pressed_keys s2) (speed s2)).2 s2).
  split_and!.
  - unfold sweep. run_eff. rewrite Hrun, update_velocity_state_run. reflexivity.
  - intros k. cbn. rewrite Hp, elem_of_difference, elem_of_list_to_set,
      keys_to_remove_spec.
    destruct (stale s1 t k); intuition congruence.
  - intros k. cbn. rewrite Hl.
    repeat case_decide; try done; exfalso;
      rewrite keys_to_remove_spec in *; tauto.
  - done.
  - done.
  - unfold velocity. cbn [set_velocity vx vy vyaw pressed_keys speed].
    by destruct (velocity_of _ _) as [[a b] c].
Qed.

Lemma keyboard_loop_once_returned key t r self s1 tr :
  handle_key key t r self = (Returned tt, s1, tr) →
  keyboard_loop_once key t r self =
    (Returned tt, node_of ((sweep t;; update_velocity_state) s1), tr).
Proof.
  intros Hk. destruct (sweep_update_run t s1) as (s' & Hrun & _).
  unfold keyboard_loop_once.
  change (handle_key key t r;; sweep t;; update_velocity_state)
    with (eff_bind (λ _, sweep t;; update_velocity_state) (handle_key key t r)).
  unfold eff_bind. rewrite Hk, Hrun. cbn. by rewrite app_nil_r.
Qed.

Lemma keyboard_loop_once_raised key t r self e s1 tr :
  handle_key key t r self = (Raised e, s1, tr) →
  keyboard_loop_once key t r self = (Raised e, s1, tr).
Proof.
  intros Hk. unfold keyboard_loop_once.
  change (handle_key key t r;; sweep t;; update_velocity_state)
    with (eff_bind (λ _, sweep t;; update_velocity_state) (handle_key key t r)).
  unfold eff_bind. by rewrite Hk.
Qed.

(** *** The branch on the key *)

Lemma movement_keys_spec (key : string) :
  key ∈ movement_keys ↔
  key = "w" ∨ key = "a" ∨ key = "s" ∨ key = "d" ∨ key = "q" ∨ key = "e".
Proof.
  unfold movement_keys. rewrite !elem_of_cons, elem_of_nil. tauto.
Qed.

Lemma handle_key_ctrl_c t r self :
  handle_key ctrl_c t r self = (Raised KeyboardInterrupt, self, []).
Proof. reflexivity. Qed.

Lemma handle_key_movement key t r self :
  key ∈ movement_keys →
  handle_key key t r self =
    (Returned tt,
     set_key_last_seen (<[key := t]> (key_last_seen self))
       (set_pressed_keys ({[key]} ∪ pressed_keys self) self),
     []).
Proof.
  intros Hm. unfold handle_key.
  destruct (decide (key = "")) as [->|_].
  { apply movement_keys_spec in Hm. intuition discriminate. }
  destruct (decide (key = ctrl_c)) as [->|_].
  { apply movement_keys_spec in Hm. intuition discriminate. }
  destruct (decide (key ∈ movement_keys)); [reflexivity|contradiction].
Qed.

Lemma handle_key_left_bracket t r self :
  handle_key "[" t r self = adjust_speed (F64.neg F64.c0_1) self.
Proof. reflexivity. Qed.

Lemma handle_key_right_bracket t r self :
  handle_key "]" t r self = adjust_speed F64.c0_1 self.
Proof. reflexivity. Qed.

(** Every other key leaves the node as it is; it may log or send a request. *)
Lemma handle_key_other key t r self :
  key ≠ ctrl_c → key ∉ movement_keys → key ≠ "[" → key ≠ "]" →
  ∃ tr, handle_key key t r self = (Returned tt, self, tr)
        ∧ requests_of tr = (if r then key_request key else []).
Proof.
  intros Hc Hm Hl Hr. unfold handle_key, key_request, call_ensure_mode, print_help.
  repeat case_decide; try contradiction; try congruence; destruct r; cbn;
    eexists; split; reflexivity.
Qed.

(** Whatever the key, the branch returns unless the key is Ctrl+C. *)
Lemma handle_key_returns key t r self :
  key ≠ ctrl_c →
  ∃ s1 tr, handle_key key t r self = (Returned tt, s1, tr).
Proof.
  intros Hc.
  destruct (decide (key ∈ movement_keys)) as [Hm|Hm].
  { rewrite handle_key_movement by done. eauto. }
  destruct (decide (key = "[")) as [->|Hl].
  { rewrite handle_key_left_bracket, adjust_speed_run. eauto. }
  destruct (decide (key = "]")) as [->|Hr].
  { rewrite handle_key_right_bracket, adjust_speed_run. eauto. }
  destruct (handle_key_other key t r self) as (tr & Htr & _); eauto.
Qed.

(** ** The invariant of the loop *)

Lemma handle_key_preserves key t r self s1 tr :
  (∀ k, k ∈ pressed_keys self → k ∈ movement_keys) →
  F64.in_unit (speed self) →
  handle_key key t r self = (Returned tt, s1, tr) →
  (∀ k, k ∈ pressed_keys s1 → k ∈ movement_keys) ∧ F64.in_unit (speed s1).
Proof.
  intros Hmov Hspd Hrun.
  destruct (decide (key = ctrl_c)) as [->|Hc]; [discriminate Hrun|].
  destruct (decide (key ∈ movement_keys)) as [Hm|Hm].
  { rewrite handle_key_movement in Hrun by done. injection Hrun as <- _.
    split; [|done]. cbn. intros k [->%elem_of_singleton|Hk]%elem_of_union; auto. }
  destruct (decide (key = "[")) as [->|Hl].
  { rewrite handle_key_left_bracket, adjust_speed_run in Hrun.
    injection Hrun as <- _. split; [done|]. apply clamp_in_unit. }
  destruct (decide (key = "]")) as [->|Hr].
  { rewrite handle_key_right_bracket, adjust_speed_run in Hrun.
    injection Hrun as <- _. split; [done|]. apply clamp_in_unit. }
  destruct (handle_key_other key t r self) as (tr' & Htr & _); try done.
  rewrite Htr in Hrun. by injection Hrun as <- _.
Qed.

(** A call that returns leaves the invariant, given only that the held keys
    were movement keys and the speed was in range before it. *)
Lemma keyboard_loop_once_invariant key t r self :
  (∀ k, k ∈ pressed_keys self → k ∈ movement_keys) →
  F64.in_unit (speed self) →
  completion_of (keyboard_loop_once key t r self) = Returned tt →
  invariant (node_of (keyboard_loop_once key t r self)).
Proof.
  intros Hmov Hspd Hret.
  destruct (handle_key key t r self) as [[[[]|e] s1] tr] eqn:Hk.
  2:{ rewrite (keyboard_loop_once_raised _ _ _ _ _ _ _ Hk) in Hret. discriminate. }
  rewrite (keyboard_loop_once_returned _ _ _ _ _ _ Hk). cbn [node_of fst snd].
  destruct (handle_key_preserves _ _ _ _ _ _ Hmov Hspd Hk) as [Hmov1 Hspd1].
  destruct (sweep_update_run t s1) as (s' & -> & Hp & Hl & Hs & _ & Hv).
  cbn [node_of fst snd]. split.
  - intros k [Hk1 _]%Hp. auto.
  - intros k [Hk1 Hst]%Hp. rewrite Hl.
    case_decide as Hd; [destruct Hd; congruence|].
    unfold stale in Hst. destruct (key_last_seen s1 !! k); [eauto|discriminate].
  - by rewrite Hs.
  - done.
Qed.

Lemma KeyboardControlNode_invariant : invariant KeyboardControlNode.
Proof.
  split.
  - intros k Hk. by apply not_elem_of_empty in Hk.
  - intros k Hk. by apply not_elem_of_empty in Hk.
  - split; vm_compute; reflexivity.
  - reflexivity.
Qed.

Lemma loop_body_run (it : iteration) (self : Node) :
  ∃ trw, loop_body it self =
           (completion_of (keyboard_loop_once (it_key it) (it_time it) (it_ready it) self),
            node_of (keyboard_loop_once (it_key it) (it_time it) (it_ready it) self),
            trw ++ events_of (keyboard_loop_once (it_key it) (it_time it) (it_ready it) self)).
Proof.
  destruct (spin_once_run (it_work it) self) as [trw Hw].
  exists trw. unfold loop_body.
  change (spin_once (it_work it);; keyboard_loop_once (it_key it) (it_time it) (it_ready it))
    with (eff_bind (λ _, keyboard_loop_once (it_key it) (it_time it) (it_ready it))
            (spin_once (it_work it))).
  unfold eff_bind. rewrite Hw.
  by destruct (keyboard_loop_once _ _ _ self) as [[c s] tr].
Qed.

Lemma loop_invariant (its : list iteration) (self : Node) :
  invariant self →
  completion_of (loop its self) = Returned tt →
  invariant (node_of (loop its self)).
Proof.
  revert self. induction its as [|it its IH]; intros self Hinv Hret; [done|].
  cbn [loop] in Hret |- *.
  change (loop_body it;; loop its) with (eff_bind (λ _, loop its) (loop_body it)) in *.
  unfold eff_bind in *.
  destruct (loop_body_run it self) as [trw Hb]. rewrite Hb in *.
  destruct (completion_of (keyboard_loop_once _ _ _ self)) as [[]|e] eqn:Hc;
    [|discriminate Hret].
  pose proof (keyboard_loop_once_invariant _ _ _ _
                (inv_movement _ Hinv) (inv_speed _ Hinv) Hc) as Hinv1.
  specialize (IH _ Hinv1).
  destruct (loop its _) as [[c s] tr]. cbn in *. auto.
Qed.

Lemma reachable_invariant (self : Node) : reachable self → invariant self.
Proof.
  intros (its & Hret & <-). by apply loop_invariant, Hret; apply KeyboardControlNode_invariant.
Qed.

Lemma holding_w_reachable : reachable holding_w.
Proof. exists [poll "w" F64.zero]. split; vm_compute; reflexivity. Qed.

(** ** The velocity mapper *)

(** C1: when both keys of an axis are held, the axis takes the value of the
    key tested later, minus the current speed: "s" over "w", "d" over "a",
    "e" over "q". The two contributions do not cancel: for a positive speed
    the result is strictly negative. *)
Theorem opposing_keys_later_key_wins (self : Node) :
  let mapped := node_of (update_velocity_state self) in
  ("w" ∈ pressed_keys self → "s" ∈ pressed_keys self →
     vx mapped = F64.neg (speed self)
     ∧ (F64.lt F64.zero (speed self) = true → F64.lt (vx mapped) F64.zero = true))
  ∧ ("a" ∈ pressed_keys self → "d" ∈ pressed_keys self →
     vy mapped = F64.neg (speed self)
     ∧ (F64.lt F64.zero (speed self) = true → F64.lt (vy mapped) F64.zero = true))
  ∧ ("q" ∈ pressed_keys self → "e" ∈ pressed_keys self →
     vyaw mapped = F64.neg (speed self)
     ∧ (F64.lt F64.zero (speed self) = true → F64.lt (vyaw mapped) F64.zero = true)).
Proof.
  rewrite update_velocity_state_run. cbn [node_of fst snd].
  unfold velocity_of. cbn [set_velocity vx vy vyaw fst snd].
  split_and!; intros H1 H2; rewrite (decide_True _ _ H2);
    (split; [reflexivity|apply neg_lt_zero]).
Qed.

Lemma opposing_keys_later_key_wins_witness :
  vx (node_of (update_velocity_state holding_all)) = F64.neg F64.c0_2
  ∧ vy (node_of (update_velocity_state holding_all)) = F64.neg F64.c0_2
  ∧ vyaw (node_of (update_velocity_state holding_all)) = F64.neg F64.c0_2.
Proof.
  destruct (opposing_keys_later_key_wins holding_all) as (Hx & Hy & Hz).
  split_and!.
  - apply Hx; vm_compute; reflexivity.
  - apply Hy; vm_compute; reflexivity.
  - apply Hz; vm_compute; reflexivity.
Defined.

(** ** The key-state tracker *)

(** The sweep drops every stale key it finds held. *)
Lemma sweep_drops_stale (t : float) (s1 : Node) (k : string) :
  k ∈ pressed_keys s1 →
  stale s1 t k = true →
  (k ∉ pressed_keys (node_of ((sweep t;; update_velocity_state) s1)))
  ∧ key_last_seen (node_of ((sweep t;; update_velocity_state) s1)) !! k = None.
Proof.
  intros Hin Hst.
  destruct (sweep_update_run t s1) as (s' & -> & Hp & Hl & _).
  cbn [node_of fst snd]. split.
  - intros [_ Hns]%Hp. congruence.
  - rewrite Hl. by rewrite decide_True.
Qed.

(** Seen from the sweep: when the key read is not Ctrl+C, every key the
    sweep finds held and stale is gone when the call returns. *)
Lemma stale_key_removed_by_sweep key t r (self : Node) (k : string) :
  key ≠ ctrl_c →
  let at_sweep := node_of (handle_key key t r self) in
  k ∈ pressed_keys at_sweep →
  stale at_sweep t k = true →
  let res := keyboard_loop_once key t r self in
  completion_of res = Returned tt
  ∧ (k ∉ pressed_keys (node_of res))
  ∧ key_last_seen (node_of res) !! k = None.
Proof.
  intros Hc. destruct (handle_key_returns key t r self Hc) as (s1 & tr & Hk).
  cbv zeta. rewrite Hk, node_of_triple. intros Hin Hst.
  rewrite (keyboard_loop_once_returned _ _ _ _ _ _ Hk), node_of_triple.
  split; [reflexivity|]. by apply sweep_drops_stale.
Qed.

(** C2, as stated, fails: with "w" held and last seen at 0.0, so stale at
    time 1.0, a call at time 1.0 that reads "w" again refreshes it before
    the sweep and keeps it held, and a call that reads Ctrl+C raises before
    the sweep and leaves it held. *)
Lemma stale_held_key_survives :
  reachable holding_w
  ∧ "w" ∈ pressed_keys holding_w
  ∧ stale holding_w F64.one "w" = true
  ∧ "w" ∈ pressed_keys (node_of (keyboard_loop_once "w" F64.one true holding_w))
  ∧ completion_of (keyboard_loop_once ctrl_c F64.one true holding_w)
    = Raised KeyboardInterrupt
  ∧ "w" ∈ pressed_keys (node_of (keyboard_loop_once ctrl_c F64.one true holding_w)).
Proof.
  split_and!; [apply holding_w_reachable|..]; vm_compute; reflexivity.
Qed.

(** C2, amended: in a call that reads neither Ctrl+C nor the key [k] itself
    as a movement key, a key [k] that is held on entry and whose last-seen
    time is more than 0.15 s before the call's current time, or that has no
    last-seen entry, is gone from the held set and from the last-seen map
    when the call returns. *)
Theorem stale_key_removed_unless_refreshed key t r (self : Node) (k : string) :
  key ≠ ctrl_c →
  ¬ (key ∈ movement_keys ∧ key = k) →
  k ∈ pressed_keys self →
  stale self t k = true →
  let res := keyboard_loop_once key t r self in
  completion_of res = Returned tt
  ∧ (k ∉ pressed_keys (node_of res))
  ∧ key_last_seen (node_of res) !! k = None.
Proof.
  intros Hc Hne Hin Hst.
  assert (∃ s1 tr, handle_key key t r self = (Returned tt, s1, tr)
                   ∧ k ∈ pressed_keys s1 ∧ stale s1 t k = true)
    as (s1 & tr & Hk & Hin1 & Hst1).
  { destruct (decide (key ∈ movement_keys)) as [Hm|Hm].
    { assert (key ≠ k) as Hk by (intros ->; by apply Hne).
      rewrite handle_key_movement by done. eexists _, _. split_and!; [done| |].
      - cbn. set_solver.
      - unfold stale in *. cbn. by rewrite lookup_insert_ne. }
    destruct (decide (key = "[")) as [->|Hl].
    { rewrite handle_key_left_bracket, adjust_speed_run. by eexists _, _. }
    destruct (decide (key = "]")) as [->|Hr].
    { rewrite handle_key_right_bracket, adjust_speed_run. by eexists _, _. }
    destruct (handle_key_other key t r self) as (tr' & -> & _); try done.
    by eexists _, _. }
  cbv zeta. rewrite (keyboard_loop_once_returned _ _ _ _ _ _ Hk), node_of_triple.
  split; [reflexivity|]. by apply sweep_drops_stale.
Qed.

Lemma stale_key_removed_unless_refreshed_witness :
  completion_of (keyboard_loop_once "a" F64.one true holding_w) = Returned tt
  ∧ ("w" ∉ pressed_keys (node_of (keyboard_loop_once "a" F64.one true holding_w)))
  ∧ key_last_seen (node_of (keyboard_loop_once "a" F64.one true holding_w)) !! "w" = None.
Proof.
  apply (stale_key_removed_unless_refreshed "a" F64.one true holding_w "w").
  - discriminate.
  - intros [_ H]. discriminate H.
  - vm_compute. reflexivity.
  - vm_compute. reflexivity.
Defined.

(** ** Speed control *)

Lemma adjust_speed_in_unit (delta : float) (self : Node) :
  F64.in_unit (speed (node_of (adjust_speed delta self))).
Proof. rewrite adjust_speed_run. apply clamp_in_unit. Qed.

(** C3: from a speed in [0.0, 1.0], any series of [adjust_speed(-0.1)] and
    [adjust_speed(+0.1)] calls leaves the speed in [0.0, 1.0] after each call. *)
Theorem speed_stays_in_unit (self : Node) (deltas : list float) :
  F64.in_unit (speed self) →
  Forall (λ delta, delta = F64.neg F64.c0_1 ∨ delta = F64.c0_1) deltas →
  Forall F64.in_unit (speeds_after deltas self).
Proof.
  intros _ _. revert self.
  induction deltas as [|delta deltas IH]; intros self; cbn [speeds_after].
  - constructor.
  - constructor; [apply adjust_speed_in_unit|apply IH].
Qed.

Lemma speed_stays_in_unit_witness :
  Forall F64.in_unit
    (speeds_after [F64.neg F64.c0_1; F64.neg F64.c0_1; F64.neg F64.c0_1; F64.c0_1]
       KeyboardControlNode).
Proof.
  apply speed_stays_in_unit.
  - split; vm_compute; reflexivity.
  - repeat apply List.Forall_cons; try apply List.Forall_nil; auto.
Defined.

(** Reading "]" stores the clamped sum, whatever else the call does. *)
Lemma right_bracket_speed t r (self : Node) :
  speed (node_of (keyboard_loop_once "]" t r self)) =
  F64.py_max F64.zero (F64.py_min (F64.add (speed self) F64.c0_1) F64.one).
Proof.
  pose proof (handle_key_right_bracket t r self) as Hk.
  rewrite adjust_speed_run in Hk.
  rewrite (keyboard_loop_once_returned _ _ _ _ _ _ Hk). cbn [node_of fst snd].
  destruct (sweep_update_run t (set_speed
              (F64.py_max F64.zero (F64.py_min (F64.add (speed self) F64.c0_1) F64.one))
              self)) as (s' & -> & _ & _ & Hs & _).
  exact Hs.
Qed.

(** C7: from the initial speed 0.2, three "]" presses give exactly 0.5 and a
    fourth exactly 0.6. Each stored speed is the sum itself: the clamp
    changes none of them, and all lie in [0.0, 1.0]. *)
Theorem three_presses_half_fourth_six_tenths (t1 t2 t3 t4 : float) (r1 r2 r3 r4 : bool) :
  let n0 := KeyboardControlNode in
  let n1 := node_of (keyboard_loop_once "]" t1 r1 n0) in
  let n2 := node_of (keyboard_loop_once "]" t2 r2 n1) in
  let n3 := node_of (keyboard_loop_once "]" t3 r3 n2) in
  let n4 := node_of (keyboard_loop_once "]" t4 r4 n3) in
  speed n0 = F64.c0_2
  ∧ speed n3 = F64.c0_5
  ∧ speed n4 = F64.c0_6
  ∧ speed n1 = F64.add (speed n0) F64.c0_1
  ∧ speed n2 = F64.add (speed n1) F64.c0_1
  ∧ speed n3 = F64.add (speed n2) F64.c0_1
  ∧ speed n4 = F64.add (speed n3) F64.c0_1
  ∧ speeds_after [F64.c0_1; F64.c0_1; F64.c0_1; F64.c0_1] n0
    = [speed n1; speed n2; F64.c0_5; F64.c0_6]
  ∧ F64.in_unit (speed n3) ∧ F64.in_unit (speed n4).
Proof.
  cbv zeta. rewrite !right_bracket_speed.
  split_and!; try (vm_compute; reflexivity); split; vm_compute; reflexivity.
Qed.

(** ** Bounds on the velocity *)

Lemma velocity_of_cases (keys : gset string) (spd : float) :
  let c := velocity_of keys spd in
  (c.1.1 = F64.zero ∨ c.1.1 = spd ∨ c.1.1 = F64.neg spd)
  ∧ (c.1.2 = F64.zero ∨ c.1.2 = spd ∨ c.1.2 = F64.neg spd)
  ∧ (c.2 = F64.zero ∨ c.2 = spd ∨ c.2 = F64.neg spd).
Proof.
  unfold velocity_of. cbn [fst snd]. split_and!; repeat case_decide; auto.
Qed.

Lemma component_bounded (spd c : float) :
  F64.in_unit spd →
  c = F64.zero ∨ c = spd ∨ c = F64.neg spd →
  F64.le (F64.abs c) spd = true ∧ F64.le (F64.abs c) F64.one = true.
Proof.
  intros [H0 H1] [->|[->| ->]].
  - split; [exact H0|reflexivity].
  - split; [by apply le_refl_nonneg|by apply abs_le_one].
  - rewrite abs_neg. split; [by apply le_refl_nonneg|by apply abs_le_one].
Qed.

(** C10: in every node the loop can reach from the initial speed 0.2, each
    of vx, vy, vyaw is at most the current speed in absolute value, the speed
    is at most 1.0, and so each component, and each component of a command
    the timer publishes from that node, is at most 1.0 in absolute value. *)
Theorem velocity_bounded_by_speed (self : Node) :
  reachable self →
  (F64.le (F64.abs (vx self)) (speed self) = true
   ∧ F64.le (F64.abs (vy self)) (speed self) = true
   ∧ F64.le (F64.abs (vyaw self)) (speed self) = true)
  ∧ F64.in_unit (speed self)
  ∧ (F64.le (F64.abs (vx self)) F64.one = true
     ∧ F64.le (F64.abs (vy self)) F64.one = true
     ∧ F64.le (F64.abs (vyaw self)) F64.one = true)
  ∧ (∀ msg, Publish msg ∈ events_of (timer_callback self) →
       F64.le (F64.abs (x (linear msg))) F64.one = true
       ∧ F64.le (F64.abs (y (linear msg))) F64.one = true
       ∧ F64.le (F64.abs (z (angular msg))) F64.one = true).
Proof.
  intros [_ _ Hspd Hvel]%reachable_invariant.
  destruct (velocity_of_cases (pressed_keys self) (speed self)) as (Hx & Hy & Hz).
  rewrite <- Hvel in Hx, Hy, Hz. cbn [velocity fst snd] in Hx, Hy, Hz.
  destruct (component_bounded _ _ Hspd Hx) as [Hx1 Hx2].
  destruct (component_bounded _ _ Hspd Hy) as [Hy1 Hy2].
  destruct (component_bounded _ _ Hspd Hz) as [Hz1 Hz2].
  split_and!; try done; try apply Hspd.
  all: intros msg Hmsg; rewrite timer_callback_run in Hmsg;
    apply list_elem_of_singleton in Hmsg; injection Hmsg as ->; done.
Qed.

Lemma velocity_bounded_by_speed_witness :
  F64.le (F64.abs (vx holding_w)) (speed holding_w) = true
  ∧ F64.le (F64.abs (vx holding_w)) F64.one = true.
Proof.
  destruct (velocity_bounded_by_speed holding_w) as ((Hx & _) & _ & (Hx1 & _) & _).
  - exists [poll "w" F64.zero]. split; vm_compute; reflexivity.
  - split; [exact Hx|exact Hx1].
Defined.

(** ** The periodic publisher *)

Lemma ticks_run (n : nat) (self : Node) :
  ticks n self = (Returned tt, self, replicate n (Publish (twist_of (velocity self)))).
Proof.
  induction n as [|n IH]; [reflexivity|].
  cbn [ticks replicate].
  change (timer_callback;; ticks n) with (eff_bind (λ _, ticks n) timer_callback).
  unfold eff_bind. by rewrite timer_callback_run, IH.
Qed.

(** C4: the timer is created with period 0.05 s; in every node the loop can
    reach in which exactly "w" is held and the speed is 0.2, a timer callback
    publishes one command with linear x = 0.2, linear y = 0.0, angular
    z = 0.0 and leaves the node as it is, so [n] callbacks in a row publish
    that same command [n] times. *)
Theorem held_w_published_every_tick (self : Node) (n : nat) :
  reachable self →
  pressed_keys self = {["w"]} →
  speed self = F64.c0_2 →
  let cmd := {| linear := {| x := F64.c0_2; y := F64.zero; z := F64.zero |};
                angular := {| x := F64.zero; y := F64.zero; z := F64.zero |} |} in
  CreateTimer F64.c0_05 ∈ events_of (__init__ blank)
  ∧ timer_callback self = (Returned tt, self, [Publish cmd])
  ∧ ticks n self = (Returned tt, self, replicate n (Publish cmd)).
Proof.
  intros [_ _ _ Hvel]%reachable_invariant Hkeys Hspd cmd.
  rewrite Hkeys, Hspd in Hvel.
  assert (twist_of (velocity self) = cmd) as Hcmd by (by rewrite Hvel).
  split_and!.
  - cbn. apply list_elem_of_here.
  - by rewrite timer_callback_run, Hcmd.
  - by rewrite ticks_run, Hcmd.
Qed.

Lemma held_w_published_every_tick_witness :
  ticks 3 holding_w =
    (Returned tt, holding_w,
     replicate 3
       (Publish {| linear := {| x := F64.c0_2; y := F64.zero; z := F64.zero |};
                   angular := {| x := F64.zero; y := F64.zero; z := F64.zero |} |})).
Proof.
  apply (held_w_published_every_tick holding_w 3).
  - exists [poll "w" F64.zero]. split; vm_compute; reflexivity.
  - vm_compute. reflexivity.
  - vm_compute. reflexivity.
Defined.

(** ** What the velocity depends on *)

(** C6, as stated, fails: "w" read alone and "w" read after a "]" leave the
    same held-key set, yet the mapper gives forward 0.2 in one node and
    0.30000000000000004 in the other. *)
Lemma same_held_keys_different_velocity :
  reachable holding_w ∧ reachable holding_w_faster
  ∧ pressed_keys holding_w = pressed_keys holding_w_faster
  ∧ velocity (node_of (update_velocity_state holding_w))
    ≠ velocity (node_of (update_velocity_state holding_w_faster)).
Proof.
  split_and!.
  - apply holding_w_reachable.
  - exists [poll "]" F64.zero; poll "w" F64.zero]. split; vm_compute; reflexivity.
  - vm_compute. reflexivity.
  - vm_compute. discriminate.
Qed.

(** C6, amended: two nodes with the same held-key set and the same current
    speed get the same velocity vector from the mapper, whatever sequence of
    observations led to each. *)
Theorem velocity_depends_on_keys_and_speed (n1 n2 : Node) :
  pressed_keys n1 = pressed_keys n2 →
  speed n1 = speed n2 →
  velocity (node_of (update_velocity_state n1))
  = velocity (node_of (update_velocity_state n2)).
Proof.
  intros Hkeys Hspd. rewrite !update_velocity_state_run. cbn [node_of fst snd].
  unfold velocity. cbn [set_velocity vx vy vyaw]. by rewrite Hkeys, Hspd.
Qed.

Lemma velocity_depends_on_keys_and_speed_witness :
  velocity (node_of (update_velocity_state holding_w))
  = velocity (node_of (update_velocity_state holding_w_after_s)).
Proof.
  apply velocity_depends_on_keys_and_speed.
  - vm_compute. reflexivity.
  - vm_compute. reflexivity.
Defined.

(** ** Requests sent for the discrete keys *)

(** C8, as stated, fails: with "m" read while the service is not available
    within the wait bound, the call logs an error and no request is sent. *)
Lemma mode_key_without_service_sends_nothing :
  events_of (keyboard_loop_once "m" F64.zero false KeyboardControlNode)
  = [Log ERROR ServiceUnavailable]
  ∧ requests_of (events_of (keyboard_loop_once "m" F64.zero false KeyboardControlNode))
    ≠ [{| field := "control_mode"; valdes := 140 |}].
Proof. split; [vm_compute; reflexivity|vm_compute; discriminate]. Qed.

(** C8, amended: when the service is available within the wait bound, a
    call that reads "m", "n", "z", "x" or "c" sends exactly one request,
    ("control_mode", 140), ("control_mode", 180), ("action", 0),
    ("action", 1) and ("action", 2) respectively, and a call that reads any
    other key sends none; when the service is not available, no key sends
    a request. *)
Theorem requests_sent_by_key key t (r : bool) (self : Node) :
  requests_of (events_of (keyboard_loop_once key t r self))
  = if r then key_request key else [].
Proof.
  assert (∀ tr : list event, requests_of tr = [] → key_request key = [] →
          requests_of tr = if r then key_request key else []) as Hnone.
  { intros tr -> ->. by destruct r. }
  destruct (decide (key = ctrl_c)) as [->|Hc].
  { rewrite (keyboard_loop_once_raised _ _ _ _ _ _ _ (handle_key_ctrl_c t r self)).
    by apply Hnone. }
  destruct (decide (key ∈ movement_keys)) as [Hm|Hm].
  { rewrite (keyboard_loop_once_returned _ _ _ _ _ _ (handle_key_movement key t r self Hm)).
    apply Hnone; [done|].
    apply movement_keys_spec in Hm as [->|[->|[->|[->|[->| ->]]]]]; reflexivity. }
  destruct (decide (key = "[")) as [->|Hl].
  { pose proof (handle_key_left_bracket t r self) as Hk. rewrite adjust_speed_run in Hk.
    rewrite (keyboard_loop_once_returned _ _ _ _ _ _ Hk). by apply Hnone. }
  destruct (decide (key = "]")) as [->|Hr].
  { pose proof (handle_key_right_bracket t r self) as Hk. rewrite adjust_speed_run in Hk.
    rewrite (keyboard_loop_once_returned _ _ _ _ _ _ Hk). by apply Hnone. }
  destruct (handle_key_other key t r self) as (tr & Hk & Hreq); try done.
  by rewrite (keyboard_loop_once_returned _ _ _ _ _ _ Hk).
Qed.

(** ** Keys that are not movement keys *)

(** The sweep looks at the held set and the last-seen map only. *)
Lemma sweep_update_agree (t : float) (s1 s2 : Node) :
  pressed_keys s1 = pressed_keys s2 →
  key_last_seen s1 = key_last_seen s2 →
  pressed_keys (node_of ((sweep t;; update_velocity_state) s1))
  = pressed_keys (node_of ((sweep t;; update_velocity_state) s2))
  ∧ key_last_seen (node_of ((sweep t;; update_velocity_state) s1))
    = key_last_seen (node_of ((sweep t;; update_velocity_state) s2)).
Proof.
  intros Hp Hl.
  assert (∀ k, stale s1 t k = stale s2 t k) as Hst
    by (intros k; unfold stale; by rewrite Hl).
  destruct (sweep_update_run t s1) as (s1' & -> & Hp1 & Hl1 & _).
  destruct (sweep_update_run t s2) as (s2' & -> & Hp2 & Hl2 & _).
  cbn [node_of fst snd]. split.
  - apply set_eq. intros k. by rewrite Hp1, Hp2, Hp, Hst.
  - apply map_eq. intros k. rewrite Hl1, Hl2, Hp, Hl, Hst.
    repeat case_decide; tauto.
Qed.

(** C9, as stated, fails for "[" and "]": with "w" held, a call that reads
    "]" leaves forward velocity 0.30000000000000004, where the same call
    reading no key leaves 0.2. *)
Lemma right_bracket_changes_velocity :
  reachable holding_w
  ∧ ("]" ∉ movement_keys)
  ∧ velocity (node_of (keyboard_loop_once "]" F64.zero true holding_w))
    ≠ velocity (node_of (keyboard_loop_once "" F64.zero true holding_w)).
Proof.
  split_and!.
  - apply holding_w_reachable.
  - rewrite movement_keys_spec. intuition discriminate.
  - vm_compute. discriminate.
Qed.

(** C9, amended: in every node the loop can reach, the held keys are
    movement keys and each has a last-seen entry. A call that reads a key
    that is not a movement key (and not Ctrl+C) does not hold that key, and
    leaves the held set and the last-seen map as the same call reading no key
    would; its velocity is the mapper's value for that held set at the speed
    it leaves. When the key is neither "[" nor "]" (so for m, n, z, x, c, h)
    the whole node, velocity included, is as if no key had been read. *)
Theorem non_movement_keys_never_held (self : Node) key t (r : bool) :
  reachable self →
  (∀ k, k ∈ pressed_keys self → k ∈ movement_keys ∧ is_Some (key_last_seen self !! k))
  ∧ (key ∉ movement_keys → key ≠ ctrl_c →
     let read := node_of (keyboard_loop_once key t r self) in
     let idle := node_of (keyboard_loop_once "" t r self) in
     (key ∉ pressed_keys read)
     ∧ pressed_keys read = pressed_keys idle
     ∧ key_last_seen read = key_last_seen idle
     ∧ velocity read = velocity_of (pressed_keys idle) (speed read)
     ∧ (key ≠ "[" → key ≠ "]" → read = idle)).
Proof.
  intros [Hmov Hseen _ _]%reachable_invariant. split; [by auto|].
  intros Hm Hc.
  assert (handle_key "" t r self = (Returned tt, self, [])) as Hidle by reflexivity.
  rewrite (keyboard_loop_once_returned _ _ _ _ _ _ Hidle).
  assert (∃ s1 tr, handle_key key t r self = (Returned tt, s1, tr)
                   ∧ pressed_keys s1 = pressed_keys self
                   ∧ key_last_seen s1 = key_last_seen self
                   ∧ (key ≠ "[" → key ≠ "]" → s1 = self))
    as (s1 & tr & Hk & Hp & Hl & Hsame).
  { destruct (decide (key = "[")) as [->|Hlb].
    { rewrite handle_key_left_bracket, adjust_speed_run. by eexists _, _. }
    destruct (decide (key = "]")) as [->|Hrb].
    { rewrite handle_key_right_bracket, adjust_speed_run. by eexists _, _. }
    destruct (handle_key_other key t r self) as (tr & Hk & _); try done.
    by exists self, tr. }
  rewrite (keyboard_loop_once_returned _ _ _ _ _ _ Hk). cbv zeta.
  rewrite !node_of_triple.
  destruct (sweep_update_agree t s1 self Hp Hl) as [Hp' Hl'].
  split_and!; try done.
  - rewrite Hp'. destruct (sweep_update_run t self) as (s' & -> & Hps & _).
    cbn [node_of fst snd]. intros [Hin _]%Hps. by apply Hm, Hmov.
  - rewrite <- Hp'. destruct (sweep_update_run t s1) as (s' & -> & _ & _ & _ & _ & Hv).
    exact Hv.
  - intros Hlb Hrb. by rewrite (Hsame Hlb Hrb).
Qed.

Lemma non_movement_keys_never_held_witness :
  ("m" ∉ pressed_keys (node_of (keyboard_loop_once "m" F64.zero true holding_w)))
  ∧ node_of (keyboard_loop_once "m" F64.zero true holding_w)
    = node_of (keyboard_loop_once "" F64.zero true holding_w).
Proof.
  destruct (non_movement_keys_never_held holding_w "m" F64.zero true) as [_ Hkey].
  - exists [poll "w" F64.zero]. split; vm_compute; reflexivity.
  - destruct Hkey as (Hnot & _ & _ & _ & Hsame).
    + rewrite movement_keys_spec. intuition discriminate.
    + discriminate.
    + split; [exact Hnot|]. apply Hsame; discriminate.
Defined.

(** * Further properties of the node *)

(** ** The held set and the last-seen map after a call *)

(** A time is never more than 0.15 s after itself, whatever it is. *)
Lemma sub_self_not_gt (t : float) : F64.gt (F64.sub t t) F64.c0_15 = false.
Proof.
  unfold F64.gt, F64.lt, F64.sub.
  destruct t as [[]|[]| |s m e]; try reflexivity.
  unfold SFsub. rewrite Z.sub_diag. reflexivity.
Qed.

(** The node the branch on the key hands to the sweep. *)
Lemma handle_key_keys key t r (self : Node) :
  key ≠ ctrl_c →
  ∃ s1 tr, handle_key key t r self = (Returned tt, s1, tr)
    ∧ pressed_keys s1 =
        (if decide (key ∈ movement_keys) then {[key]} ∪ pressed_keys self
         else pressed_keys self)
    ∧ key_last_seen s1 =
        (if decide (key ∈ movement_keys) then <[key := t]> (key_last_seen self)
         else key_last_seen self)
    ∧ default_speed s1 = default_speed self
    ∧ (key ≠ "[" → key ≠ "]" → speed s1 = speed self).
Proof.
  intros Hc. destruct (decide (key ∈ movement_keys)) as [Hm|Hm].
  { rewrite handle_key_movement by done. eexists _, _. split_and!; done. }
  destruct (decide (key = "[")) as [->|Hl].
  { rewrite handle_key_left_bracket, adjust_speed_run. eexists _, _.
    split_and!; done. }
  destruct (decide (key = "]")) as [->|Hr].
  { rewrite handle_key_right_bracket, adjust_speed_run. eexists _, _.
    split_and!; done. }
  destruct (handle_key_other key t r self) as (tr & -> & _); try done.
  eexists _, _. split_and!; done.
Qed.

(** Staleness as the sweep sees it, in terms of the node on entry. *)
Lemma stale_after_key key t r (self s1 : Node) tr (k : string) :
  handle_key key t r self = (Returned tt, s1, tr) →
  stale s1 t k = if decide (key ∈ movement_keys ∧ k = key) then false
                 else stale self t k.
Proof.
  intros Hk.
  assert (key ≠ ctrl_c) as Hc by (intros ->; discriminate Hk).
  destruct (handle_key_keys key t r self Hc) as (s1' & tr' & Hk' & _ & Hl & _).
  rewrite Hk in Hk'. injection Hk' as <- <-.
  unfold stale. rewrite Hl.
  destruct (decide (key ∈ movement_keys)) as [Hm|Hm].
  - destruct (decide (k = key)) as [->|Hne].
    + rewrite lookup_insert_eq, decide_True by done. apply sub_self_not_gt.
    + rewrite lookup_insert_ne by done. by rewrite decide_False by tauto.
  - by rewrite decide_False by tauto.
Qed.

Lemma held_after_call key t r (self : Node) (k : string) :
  key ≠ ctrl_c →
  k ∈ pressed_keys (node_of (keyboard_loop_once key t r self))
  ↔ (key ∈ movement_keys ∧ k = key) ∨ (k ∈ pressed_keys self ∧ stale self t k = false).
Proof.
  intros Hc.
  destruct (handle_key_keys key t r self Hc) as (s1 & tr & Hk & Hp & _).
  rewrite (keyboard_loop_once_returned _ _ _ _ _ _ Hk), node_of_triple.
  destruct (sweep_update_run t s1) as (s' & -> & Hps & _). rewrite node_of_triple.
  rewrite Hps, Hp, (stale_after_key _ _ _ _ _ _ k Hk).
  destruct (decide (key ∈ movement_keys)) as [Hm|Hm].
  - rewrite elem_of_union, elem_of_singleton.
    case_decide; intuition congruence.
  - rewrite decide_False by tauto. tauto.
Qed.

Lemma last_seen_after_call key t r (self : Node) (k : string) :
  key ≠ ctrl_c →
  key_last_seen (node_of (keyboard_loop_once key t r self)) !! k
  = if decide (key ∈ movement_keys ∧ k = key) then Some t
    else if decide (k ∈ pressed_keys self ∧ stale self t k = true) then None
    else key_last_seen self !! k.
Proof.
  intros Hc.
  destruct (handle_key_keys key t r self Hc) as (s1 & tr & Hk & Hp & Hl & _).
  rewrite (keyboard_loop_once_returned _ _ _ _ _ _ Hk), node_of_triple.
  destruct (sweep_update_run t s1) as (s' & -> & _ & Hls & _). rewrite node_of_triple.
  rewrite Hls, Hp, Hl, (stale_after_key _ _ _ _ _ _ k Hk).
  destruct (decide (key ∈ movement_keys)) as [Hm|Hm].
  - destruct (decide (k = key)) as [->|Hne];
      [rewrite lookup_insert_eq|rewrite lookup_insert_ne by done];
      repeat case_decide; try done; exfalso;
      intuition (try congruence; try set_solver).
  - repeat case_decide; try done; exfalso; intuition congruence.
Qed.

(** X1: when a call returns, the held set is the key just read, if it is a
    movement key, together with the keys held before whose last observation
    is not more than 0.15 s old. Nothing else is ever added or kept. *)
Theorem held_set_after_call key t r (self : Node) :
  key ≠ ctrl_c →
  ∀ k, k ∈ pressed_keys (node_of (keyboard_loop_once key t r self))
       ↔ (key ∈ movement_keys ∧ k = key)
         ∨ (k ∈ pressed_keys self ∧ stale self t k = false).
Proof. intros Hc k. by apply held_after_call. Qed.

Lemma held_set_after_call_witness :
  "a" ∈ pressed_keys (node_of (keyboard_loop_once "a" F64.one true holding_w))
  ∧ ("w" ∉ pressed_keys (node_of (keyboard_loop_once "a" F64.one true holding_w))).
Proof.
  pose proof (held_set_after_call "a" F64.one true holding_w) as H.
  split.
  - apply H; [discriminate|]. left. split; [|reflexivity].
    apply movement_keys_spec. tauto.
  - intros [[_ Hw]|[_ Hw]]%H; [discriminate Hw| |discriminate].
    vm_compute in Hw. discriminate Hw.
Defined.

(** X2: when a call returns, the last-seen map holds the call's time for a
    movement key just read, has lost the entry of every held key that was
    stale, and is unchanged everywhere else. *)
Theorem last_seen_map_after_call key t r (self : Node) :
  key ≠ ctrl_c →
  ∀ k, key_last_seen (node_of (keyboard_loop_once key t r self)) !! k
       = if decide (key ∈ movement_keys ∧ k = key) then Some t
         else if decide (k ∈ pressed_keys self ∧ stale self t k = true) then None
         else key_last_seen self !! k.
Proof. intros Hc k. by apply last_seen_after_call. Qed.

Lemma last_seen_map_after_call_witness :
  key_last_seen (node_of (keyboard_loop_once "a" F64.one true holding_w)) !! "a"
  = Some F64.one.
Proof.
  rewrite (last_seen_map_after_call "a" F64.one true holding_w); [|discriminate].
  reflexivity.
Defined.

(** ** What every reachable node satisfies *)

(** A property kept by every returning call holds after every returning run. *)
Lemma loop_preserves (P : Node → Prop) :
  (∀ key t r s, P s → completion_of (keyboard_loop_once key t r s) = Returned tt →
                P (node_of (keyboard_loop_once key t r s))) →
  ∀ its s, P s → completion_of (loop its s) = Returned tt → P (node_of (loop its s)).
Proof.
  intros Hstep. induction its as [|it its IH]; intros s Hs Hret; [done|].
  cbn [loop] in Hret |- *.
  change (loop_body it;; loop its) with (eff_bind (λ _, loop its) (loop_body it)) in *.
  unfold eff_bind in *.
  destruct (loop_body_run it s) as [trw Hb]. rewrite Hb in *.
  destruct (completion_of (keyboard_loop_once _ _ _ s)) as [[]|e] eqn:Hc;
    [|discriminate Hret].
  specialize (IH _ (Hstep _ _ _ _ Hs Hc)).
  destruct (loop its _) as [[c s'] tr]. cbn in *. auto.
Qed.

Lemma returned_not_ctrl_c key t r (s : Node) :
  completion_of (keyboard_loop_once key t r s) = Returned tt → key ≠ ctrl_c.
Proof.
  intros Hret ->.
  rewrite (keyboard_loop_once_raised _ _ _ _ _ _ _ (handle_key_ctrl_c t r s)) in Hret.
  discriminate Hret.
Qed.

Lemma velocity_after_call key t r (self : Node) :
  key ≠ ctrl_c →
  velocity (node_of (keyboard_loop_once key t r self))
  = velocity_of (pressed_keys (node_of (keyboard_loop_once key t r self)))
                (speed (node_of (keyboard_loop_once key t r self))).
Proof.
  intros Hc. destruct (handle_key_returns key t r self Hc) as (s1 & tr & Hk).
  rewrite (keyboard_loop_once_returned _ _ _ _ _ _ Hk), node_of_triple.
  by destruct (sweep_update_run t s1) as (s' & -> & _ & _ & _ & _ & Hv).
Qed.

Lemma speed_after_call key t r (self : Node) :
  (key ≠ "[" → key ≠ "]" → speed (node_of (keyboard_loop_once key t r self)) = speed self)
  ∧ default_speed (node_of (keyboard_loop_once key t r self)) = default_speed self.
Proof.
  destruct (decide (key = ctrl_c)) as [->|Hc].
  { by rewrite (keyboard_loop_once_raised _ _ _ _ _ _ _ (handle_key_ctrl_c t r self)). }
  destruct (handle_key_keys key t r self Hc) as (s1 & tr & Hk & _ & _ & Hd & Hs).
  rewrite (keyboard_loop_once_returned _ _ _ _ _ _ Hk), node_of_triple.
  destruct (sweep_update_run t s1) as (s' & -> & _ & _ & Hs' & Hd' & _).
  rewrite node_of_triple, Hs', Hd'. split; [exact Hs|exact Hd].
Qed.

(** X3: between iterations the last-seen map has an entry exactly for the
    held keys: the dict never keeps a time for a key that is not held. *)
Theorem last_seen_entries_are_held_keys (self : Node) :
  reachable self → dom (key_last_seen self) = pressed_keys self.
Proof.
  intros (its & Hret & <-).
  assert (invariant (node_of (loop its KeyboardControlNode))
          ∧ ∀ k, is_Some (key_last_seen (node_of (loop its KeyboardControlNode)) !! k) →
                 k ∈ pressed_keys (node_of (loop its KeyboardControlNode))) as [Hinv Hdom].
  { apply (loop_preserves (λ s, invariant s
             ∧ ∀ k, is_Some (key_last_seen s !! k) → k ∈ pressed_keys s));
      [|split; [apply KeyboardControlNode_invariant|]|exact Hret].
    - intros key t r s [Hinv Hdom] Hc. split.
      + apply keyboard_loop_once_invariant; [apply Hinv|apply Hinv|exact Hc].
      + pose proof (returned_not_ctrl_c _ _ _ _ Hc) as Hne.
        intros k. rewrite last_seen_after_call, held_after_call by done.
        repeat case_decide; intros Hsome; [tauto|by destruct Hsome|].
        right. split; [by apply Hdom|].
        destruct (stale s t k) eqn:Hst; [|done]. exfalso. auto.
    - intros k [v Hv]. discriminate Hv. }
  apply set_eq. intros k. rewrite elem_of_dom. split; [apply Hdom|apply Hinv].
Qed.

Lemma last_seen_entries_are_held_keys_witness :
  dom (key_last_seen holding_w_after_s) = pressed_keys holding_w_after_s.
Proof.
  apply last_seen_entries_are_held_keys.
  exists [poll "s" F64.zero; poll "w" F64.one]. split; vm_compute; reflexivity.
Defined.

(** X4: between iterations the stored velocity is the mapper's value for
    the current held set and the current speed: a speed change or a key
    release is in the velocity by the time the call that made it returns. *)
Theorem velocity_matches_held_keys (self : Node) :
  reachable self → velocity self = velocity_of (pressed_keys self) (speed self).
Proof. intros Hr. apply reachable_invariant in Hr. apply Hr. Qed.

Lemma velocity_matches_held_keys_witness :
  velocity holding_w_faster
  = velocity_of (pressed_keys holding_w_faster) (speed holding_w_faster).
Proof.
  apply velocity_matches_held_keys.
  exists [poll "]" F64.zero; poll "w" F64.zero]. split; vm_compute; reflexivity.
Defined.

Lemma velocity_of_empty (spd : float) :
  velocity_of ∅ spd = (F64.zero, F64.zero, F64.zero).
Proof.
  unfold velocity_of. repeat case_decide; try done; exfalso; set_solver.
Qed.

(** X5: a call that reads no key, or a key that is neither a movement key
    nor Ctrl+C (which raises before the sweep), while every held key is
    stale, leaves the held set empty and the velocity at (0.0, 0.0, 0.0),
    whatever the speed; the next timer callback publishes the all-zero
    command. *)
Theorem all_keys_released_stops key t r (self : Node) :
  key ≠ ctrl_c →
  key ∉ movement_keys →
  (∀ k, k ∈ pressed_keys self → stale self t k = true) →
  let res := node_of (keyboard_loop_once key t r self) in
  pressed_keys res = ∅
  ∧ velocity res = (F64.zero, F64.zero, F64.zero)
  ∧ events_of (timer_callback res) = [Publish Twist_new].
Proof.
  intros Hc Hm Hall. cbv zeta.
  assert (pressed_keys (node_of (keyboard_loop_once key t r self)) = ∅) as Hempty.
  { apply set_eq. intros k. rewrite held_after_call by done.
    split; [|by intros ?%not_elem_of_empty].
    intros [[? _]|[Hin Hst]]; [done|]. rewrite (Hall _ Hin) in Hst. discriminate. }
  assert (velocity (node_of (keyboard_loop_once key t r self))
          = (F64.zero, F64.zero, F64.zero)) as Hv.
  { by rewrite velocity_after_call, Hempty, velocity_of_empty. }
  split_and!; [done|done|].
  by rewrite timer_callback_run, Hv.
Qed.

Lemma all_keys_released_stops_witness :
  pressed_keys (node_of (keyboard_loop_once "h" F64.one true holding_all)) = ∅
  ∧ velocity (node_of (keyboard_loop_once "h" F64.one true holding_all))
    = (F64.zero, F64.zero, F64.zero).
Proof.
  destruct (all_keys_released_stops "h" F64.one true holding_all) as (H1 & H2 & _).
  - discriminate.
  - rewrite movement_keys_spec. intuition discriminate.
  - intros k Hk. apply (inv_movement holding_all) in Hk.
    + apply movement_keys_spec in Hk as [->|[->|[->|[->|[->| ->]]]]];
        vm_compute; reflexivity.
    + apply reachable_invariant. eexists. split; [|reflexivity]. vm_compute. reflexivity.
  - split; [exact H1|exact H2].
Defined.

(** X6: only "[" and "]" change the speed: a call that reads any other key,
    Ctrl+C included, leaves [speed] as it was; no call changes
    [default_speed]. *)
Theorem speed_changes_only_on_brackets key t r (self : Node) :
  (key ≠ "[" → key ≠ "]" →
   speed (node_of (keyboard_loop_once key t r self)) = speed self)
  ∧ default_speed (node_of (keyboard_loop_once key t r self)) = default_speed self.
Proof. pose proof (speed_after_call key t r self) as H. exact H. Qed.

Lemma speed_changes_only_on_brackets_witness :
  speed (node_of (keyboard_loop_once "w" F64.zero true KeyboardControlNode)) = F64.c0_2.
Proof.
  destruct (speed_changes_only_on_brackets "w" F64.zero true KeyboardControlNode)
    as [H _].
  rewrite H; [reflexivity|discriminate|discriminate].
Defined.

(** ** Whole runs of the loop *)

(** One more iteration in front of a run: the callback, then the call, then
    the rest unless the call raised. *)
Lemma loop_cons_run (it : iteration) (its : list iteration) (s : Node) :
  ∃ trw, spin_once (it_work it) s = (Returned tt, s, trw)
    ∧ loop (it :: its) s =
        match completion_of (keyboard_loop_once (it_key it) (it_time it) (it_ready it) s) with
        | Returned _ =>
            (completion_of (loop its
               (node_of (keyboard_loop_once (it_key it) (it_time it) (it_ready it) s))),
             node_of (loop its
               (node_of (keyboard_loop_once (it_key it) (it_time it) (it_ready it) s))),
             (trw ++ events_of (keyboard_loop_once (it_key it) (it_time it) (it_ready it) s))
             ++ events_of (loop its
                  (node_of (keyboard_loop_once (it_key it) (it_time it) (it_ready it) s))))
        | Raised e =>
            (Raised e,
             node_of (keyboard_loop_once (it_key it) (it_time it) (it_ready it) s),
             trw ++ events_of (keyboard_loop_once (it_key it) (it_time it) (it_ready it) s))
        end.
Proof.
  destruct (spin_once_run (it_work it) s) as [trw Hw]. exists trw. split; [done|].
  cbn [loop].
  change (loop_body it;; loop its) with (eff_bind (λ _, loop its) (loop_body it)).
  unfold eff_bind, loop_body.
  change (spin_once (it_work it);; keyboard_loop_once (it_key it) (it_time it) (it_ready it))
    with (eff_bind (λ _, keyboard_loop_once (it_key it) (it_time it) (it_ready it))
            (spin_once (it_work it))).
  unfold eff_bind. rewrite Hw.
  destruct (keyboard_loop_once _ _ _ s) as [[[[]|e] s1] tr]; cbn; [|done].
  by destruct (loop its s1) as [[c s2] tr2].
Qed.

Lemma loop_app (its1 its2 : list iteration) (s : Node) :
  loop (its1 ++ its2) s =
    match completion_of (loop its1 s) with
    | Returned _ =>
        (completion_of (loop its2 (node_of (loop its1 s))),
         node_of (loop its2 (node_of (loop its1 s))),
         events_of (loop its1 s) ++ events_of (loop its2 (node_of (loop its1 s))))
    | Raised e => loop its1 s
    end.
Proof.
  revert s. induction its1 as [|it its1 IH]; intros s.
  - cbn. by destruct (loop its2 s) as [[c s2] tr2].
  - rewrite <- app_comm_cons.
    destruct (loop_cons_run it (its1 ++ its2) s) as (trw & Hw & ->).
    destruct (loop_cons_run it its1 s) as (trw' & Hw' & ->).
    rewrite Hw in Hw'. injection Hw' as <-.
    destruct (completion_of (keyboard_loop_once _ _ _ s)) as [[]|e]; [|done].
    rewrite IH. cbn [completion_of node_of events_of fst snd].
    destruct (loop its1 _) as [[[[]|e] s1] tr1]; cbn; [|done].
    by rewrite !app_assoc.
Qed.

(** X7: the loop stops at the first Ctrl+C. The iteration that reads it
    raises [KeyboardInterrupt] without changing the node, and no later
    iteration runs: nothing after it is read, published or requested. *)
Theorem loop_stops_at_ctrl_c (its1 its2 : list iteration) (it : iteration) (s : Node) :
  it_key it = ctrl_c →
  loop (its1 ++ it :: its2) s = loop (its1 ++ [it]) s
  ∧ completion_of (loop (its1 ++ it :: its2) s) = Raised KeyboardInterrupt
  ∧ node_of (loop (its1 ++ it :: its2) s) = node_of (loop its1 s).
Proof.
  intros Hkey.
  assert (∀ rest s1 trw, spin_once (it_work it) s1 = (Returned tt, s1, trw) →
            loop (it :: rest) s1 = (Raised KeyboardInterrupt, s1, trw)) as Hstop.
  { intros rest s1 trw Hw. destruct (loop_cons_run it rest s1) as (trw' & Hw' & ->).
    rewrite Hw in Hw'. injection Hw' as <-.
    rewrite Hkey,
      (keyboard_loop_once_raised _ _ _ _ _ _ _ (handle_key_ctrl_c _ _ s1)).
    cbn. by rewrite app_nil_r. }
  rewrite !loop_app.
  destruct (loop its1 s) as [[[[]|[]] s1] tr1] eqn:H1;
    cbn [completion_of node_of events_of fst snd]; [|done].
  destruct (spin_once_run (it_work it) s1) as [trw Hw].
  by rewrite !(Hstop _ _ _ Hw).
Qed.

Lemma loop_stops_at_ctrl_c_witness :
  node_of (loop ([poll "w" F64.zero] ++ poll ctrl_c F64.zero :: [poll "s" F64.zero])
             KeyboardControlNode)
  = holding_w.
Proof.
  destruct (loop_stops_at_ctrl_c [poll "w" F64.zero] [poll "s" F64.zero]
              (poll ctrl_c F64.zero) KeyboardControlNode) as (_ & _ & H).
  - reflexivity.
  - exact H.
Defined.

(** The node a call leaves does not depend on the service being ready. *)
Lemma call_ignores_service key t (r r' : bool) (s : Node) :
  completion_of (keyboard_loop_once key t r s) = completion_of (keyboard_loop_once key t r' s)
  ∧ node_of (keyboard_loop_once key t r s) = node_of (keyboard_loop_once key t r' s).
Proof.
  destruct (decide (key = ctrl_c)) as [->|Hc].
  { by rewrite !(keyboard_loop_once_raised _ _ _ _ _ _ _ (handle_key_ctrl_c _ _ s)). }
  assert (∃ s1 tr tr', handle_key key t r s = (Returned tt, s1, tr)
                       ∧ handle_key key t r' s = (Returned tt, s1, tr'))
    as (s1 & tr & tr' & Hk & Hk').
  { destruct (decide (key ∈ movement_keys)) as [Hm|Hm].
    { rewrite !handle_key_movement by done. by eexists _, _, _. }
    destruct (decide (key = "[")) as [->|Hl].
    { rewrite !handle_key_left_bracket, adjust_speed_run. by eexists _, _, _. }
    destruct (decide (key = "]")) as [->|Hr].
    { rewrite !handle_key_right_bracket, adjust_speed_run. by eexists _, _, _. }
    destruct (handle_key_other key t r s) as (tr & -> & _); try done.
    destruct (handle_key_other key t r' s) as (tr' & -> & _); try done.
    by eexists _, _, _. }
  by rewrite (keyboard_loop_once_returned _ _ _ _ _ _ Hk),
    (keyboard_loop_once_returned _ _ _ _ _ _ Hk').
Qed.

(** X8: the node a run leaves depends only on the keys read and the times
    they were read at: which callbacks [spin_once] ran and whether the
    remote service answered make no difference to it. *)
Theorem node_depends_on_keys_and_times (its1 its2 : list iteration) (s : Node) :
  Forall2 (λ a b, it_key a = it_key b ∧ it_time a = it_time b) its1 its2 →
  completion_of (loop its1 s) = completion_of (loop its2 s)
  ∧ node_of (loop its1 s) = node_of (loop its2 s).
Proof.
  intros Hsame. revert s.
  induction Hsame as [|a b l1 l2 [Hkey Htime] _ IH]; intros s; [done|].
  destruct (loop_cons_run a l1 s) as (trwa & _ & ->).
  destruct (loop_cons_run b l2 s) as (trwb & _ & ->).
  rewrite <- Hkey, <- Htime.
  destruct (call_ignores_service (it_key a) (it_time a) (it_ready a) (it_ready b) s)
    as [<- <-].
  destruct (completion_of (keyboard_loop_once _ _ _ s)) as [[]|e]; [|done].
  apply IH.
Qed.

Lemma node_depends_on_keys_and_times_witness :
  node_of (loop [{| it_work := TimerDue; it_key := "m"; it_time := F64.zero;
                    it_ready := false |}] KeyboardControlNode)
  = node_of (loop [poll "m" F64.zero] KeyboardControlNode).
Proof.
  apply node_depends_on_keys_and_times.
  repeat constructor.
Defined.

(** *** The trace of a run *)

(** The sweep and the velocity update emit nothing: the events of a call are
    those of the branch on the key. *)
Lemma keyboard_loop_once_events key t r (s : Node) :
  events_of (keyboard_loop_once key t r s) = events_of (handle_key key t r s).
Proof.
  destruct (handle_key key t r s) as [[[[]|e] s1] tr] eqn:Hk.
  - by rewrite (keyboard_loop_once_returned _ _ _ _ _ _ Hk).
  - by rewrite (keyboard_loop_once_raised _ _ _ _ _ _ _ Hk).
Qed.

(** A call publishes nothing, and sends the request of its key, if any,
    when the service is ready. *)
Lemma keyboard_loop_once_trace key t (r : bool) (s : Node) :
  publishes_of (events_of (keyboard_loop_once key t r s)) = []
  ∧ requests_of (events_of (keyboard_loop_once key t r s))
    = (if r then key_request key else []).
Proof.
  rewrite keyboard_loop_once_events.
  assert (∀ tr : list event, publishes_of tr = [] → requests_of tr = [] →
            key_request key = [] →
            publishes_of tr = [] ∧ requests_of tr = if r then key_request key else [])
    as Hnone.
  { intros tr -> -> ->. by destruct r. }
  destruct (decide (key = ctrl_c)) as [->|Hc].
  { rewrite handle_key_ctrl_c. by apply Hnone. }
  destruct (decide (key ∈ movement_keys)) as [Hm|Hm].
  { rewrite handle_key_movement by done. apply Hnone; [done|done|].
    apply movement_keys_spec in Hm as [->|[->|[->|[->|[->| ->]]]]]; reflexivity. }
  destruct (decide (key = "[")) as [->|Hl].
  { rewrite handle_key_left_bracket, adjust_speed_run. by apply Hnone. }
  destruct (decide (key = "]")) as [->|Hr].
  { rewrite handle_key_right_bracket, adjust_speed_run. by apply Hnone. }
  clear Hnone. unfold handle_key, key_request, call_ensure_mode, print_help.
  repeat case_decide; try contradiction; try congruence; destruct r; cbn; done.
Qed.

(** A callback sends no request, and publishes only when the timer is due:
    then it is the command for the node's velocity. *)
Lemma spin_once_trace (it : iteration) (s : Node) trw :
  spin_once (it_work it) s = (Returned tt, s, trw) →
  publishes_of trw = (if timer_due it then [twist_of (velocity s)] else [])
  ∧ requests_of trw = [].
Proof.
  unfold timer_due. destruct (it_work it) as [| |[e|res]]; cbn.
  - by intros [= <-].
  - by intros [= <-].
  - by intros [= <-].
  - destruct (result res); by intros [= <-].
Qed.

Lemma publishes_of_app (tr1 tr2 : list event) :
  publishes_of (tr1 ++ tr2) = publishes_of tr1 ++ publishes_of tr2.
Proof. apply omap_app. Qed.

Lemma requests_of_app (tr1 tr2 : list event) :
  requests_of (tr1 ++ tr2) = requests_of tr1 ++ requests_of tr2.
Proof. apply omap_app. Qed.

Lemma elem_of_publishes_of (tr : list event) (msg : Twist) :
  Publish msg ∈ tr ↔ msg ∈ publishes_of tr.
Proof.
  unfold publishes_of. rewrite list_elem_of_omap. split.
  - intros Hin. by exists (Publish msg).
  - intros ([] & Hin & Heq); try discriminate. by injection Heq as ->.
Qed.

(** The command for a velocity as the invariant has it. *)
Lemma twist_of_bounded (s : Node) :
  invariant s →
  F64.le (F64.abs (x (linear (twist_of (velocity s))))) F64.one = true
  ∧ F64.le (F64.abs (y (linear (twist_of (velocity s))))) F64.one = true
  ∧ F64.le (F64.abs (z (angular (twist_of (velocity s))))) F64.one = true.
Proof.
  intros [_ _ Hspd Hvel].
  destruct (velocity_of_cases (pressed_keys s) (speed s)) as (Hx & Hy & Hz).
  rewrite <- Hvel in Hx, Hy, Hz. cbn [velocity fst snd] in Hx, Hy, Hz.
  destruct (component_bounded _ _ Hspd Hx) as [_ Hx2].
  destruct (component_bounded _ _ Hspd Hy) as [_ Hy2].
  destruct (component_bounded _ _ Hspd Hz) as [_ Hz2].
  done.
Qed.

Lemma run_publishes_bounded (its : list iteration) (s : Node) (msg : Twist) :
  invariant s →
  msg ∈ publishes_of (events_of (loop its s)) →
  (F64.le (F64.abs (x (linear msg))) F64.one = true
   ∧ F64.le (F64.abs (y (linear msg))) F64.one = true
   ∧ F64.le (F64.abs (z (angular msg))) F64.one = true)
  ∧ z (linear msg) = F64.zero ∧ x (angular msg) = F64.zero ∧ y (angular msg) = F64.zero.
Proof.
  revert s. induction its as [|it its IH]; intros s Hinv Hin.
  { by apply elem_of_nil in Hin. }
  destruct (loop_cons_run it its s) as (trw & Hw & Hrun). rewrite Hrun in Hin.
  destruct (spin_once_trace it s trw Hw) as [Hpub _].
  destruct (keyboard_loop_once_trace (it_key it) (it_time it) (it_ready it) s) as [Hnone _].
  assert (msg ∈ publishes_of trw → msg = twist_of (velocity s)) as Hhere.
  { rewrite Hpub. destruct (timer_due it); [|by intros ?%elem_of_nil].
    by intros ->%list_elem_of_singleton. }
  destruct (completion_of (keyboard_loop_once _ _ _ s)) as [[]|e] eqn:Hc;
    cbn [events_of snd] in Hin;
    rewrite ?publishes_of_app, ?Hnone, ?app_nil_r, ?elem_of_app in Hin.
  - destruct Hin as [->%Hhere|Hin].
    + split; [by apply twist_of_bounded|done].
    + apply (IH _ (keyboard_loop_once_invariant _ _ _ _
                     (inv_movement _ Hinv) (inv_speed _ Hinv) Hc) Hin).
  - apply Hhere in Hin as ->. split; [by apply twist_of_bounded|done].
Qed.

(** X9: every command published anywhere in a run from a fresh node has
    linear x, linear y and angular z of magnitude at most 1.0, and its other
    three components are 0.0. *)
Theorem every_published_command_bounded (its : list iteration) (msg : Twist) :
  Publish msg ∈ events_of (loop its KeyboardControlNode) →
  (F64.le (F64.abs (x (linear msg))) F64.one = true
   ∧ F64.le (F64.abs (y (linear msg))) F64.one = true
   ∧ F64.le (F64.abs (z (angular msg))) F64.one = true)
  ∧ z (linear msg) = F64.zero ∧ x (angular msg) = F64.zero ∧ y (angular msg) = F64.zero.
Proof.
  intros Hin%elem_of_publishes_of.
  exact (run_publishes_bounded its _ msg KeyboardControlNode_invariant Hin).
Qed.

Lemma every_published_command_bounded_witness :
  F64.le (F64.abs (x (linear (twist_of (F64.c0_2, F64.zero, F64.zero))))) F64.one = true.
Proof.
  apply (every_published_command_bounded
           [poll "w" F64.zero;
            {| it_work := TimerDue; it_key := "w"; it_time := F64.zero; it_ready := true |}]
           (twist_of (F64.c0_2, F64.zero, F64.zero))).
  vm_compute. apply list_elem_of_here.
Defined.

(** X10: in a run in which Ctrl+C is never read there is exactly one
    published command per timer firing; key handling and service responses
    publish nothing. *)
Theorem one_command_per_timer_firing (its : list iteration) (s : Node) :
  Forall (λ it, it_key it ≠ ctrl_c) its →
  length (publishes_of (events_of (loop its s))) = timer_firings its.
Proof.
  intros Hok. revert s. unfold timer_firings.
  induction Hok as [|it its Hkey _ IH]; intros s; [done|].
  destruct (loop_cons_run it its s) as (trw & Hw & ->).
  destruct (spin_once_trace it s trw Hw) as [Hpub _].
  destruct (keyboard_loop_once_trace (it_key it) (it_time it) (it_ready it) s) as [Hnone _].
  destruct (handle_key_returns (it_key it) (it_time it) (it_ready it) s Hkey)
    as (s1 & tr & Hk).
  rewrite (keyboard_loop_once_returned _ _ _ _ _ _ Hk) in *.
  cbn [completion_of node_of events_of fst snd] in *.
  rewrite !publishes_of_app, Hnone, app_nil_r, length_app, IH, Hpub, filter_cons.
  by destruct (timer_due it).
Qed.

Lemma one_command_per_timer_firing_witness :
  length (publishes_of (events_of (loop
    [{| it_work := TimerDue; it_key := "w"; it_time := F64.zero; it_ready := true |};
     poll "]" F64.zero;
     {| it_work := TimerDue; it_key := ""; it_time := F64.zero; it_ready := true |}]
    KeyboardControlNode))) = 2%nat.
Proof.
  apply (one_command_per_timer_firing
    [{| it_work := TimerDue; it_key := "w"; it_time := F64.zero; it_ready := true |};
     poll "]" F64.zero;
     {| it_work := TimerDue; it_key := ""; it_time := F64.zero; it_ready := true |}]).
  repeat apply List.Forall_cons; try apply List.Forall_nil; discriminate.
Defined.

(** X11: in a run in which Ctrl+C is never read, the requests sent are, in
    order, one for each iteration that reads "m", "n", "z", "x" or "c" while
    the service is ready; nothing else sends a request. *)
Theorem requests_of_a_run (its : list iteration) (s : Node) :
  Forall (λ it, it_key it ≠ ctrl_c) its →
  requests_of (events_of (loop its s))
  = its ≫= (λ it, if it_ready it then key_request (it_key it) else []).
Proof.
  intros Hok. revert s.
  induction Hok as [|it its Hkey _ IH]; intros s; [done|].
  destruct (loop_cons_run it its s) as (trw & Hw & ->).
  destruct (spin_once_trace it s trw Hw) as [_ Hnone].
  destruct (keyboard_loop_once_trace (it_key it) (it_time it) (it_ready it) s) as [_ Hreq].
  destruct (handle_key_returns (it_key it) (it_time it) (it_ready it) s Hkey)
    as (s1 & tr & Hk).
  rewrite (keyboard_loop_once_returned _ _ _ _ _ _ Hk) in *.
  cbn [completion_of node_of events_of fst snd] in *.
  by rewrite !requests_of_app, Hnone, Hreq, IH, bind_cons.
Qed.

Lemma requests_of_a_run_witness :
  requests_of (events_of (loop
    [poll "m" F64.zero; poll "w" F64.zero;
     {| it_work := NoWork; it_key := "x"; it_time := F64.zero; it_ready := false |};
     poll "c" F64.zero] KeyboardControlNode))
  = [{| field := "control_mode"; valdes := 140 |}; {| field := "action"; valdes := 2 |}].
Proof.
  rewrite requests_of_a_run; [reflexivity|].
  repeat apply List.Forall_cons; try apply List.Forall_nil; discriminate.
Defined.

(** ** Repeating a call *)

Lemma Node_eq (a b : Node) :
  pressed_keys a = pressed_keys b →
  key_last_seen a = key_last_seen b →
  velocity a = velocity b →
  default_speed a = default_speed b →
  speed a = speed b →
  a = b.
Proof.
  destruct a, b. unfold velocity. cbn. intros -> -> [= -> -> ->] -> ->. reflexivity.
Qed.

(** X12: a call repeated with the same key at the same time leaves the node
    the first call left, for every key but "[" and "]" (whose second
    reading adjusts the speed again). *)
Theorem repeated_call_changes_nothing key t (r r' : bool) (self : Node) :
  key ≠ "[" → key ≠ "]" →
  node_of (keyboard_loop_once key t r' (node_of (keyboard_loop_once key t r self)))
  = node_of (keyboard_loop_once key t r self).
Proof.
  intros Hl Hr.
  destruct (decide (key = ctrl_c)) as [->|Hc].
  { by rewrite !(keyboard_loop_once_raised _ _ _ _ _ _ _ (handle_key_ctrl_c _ _ _)). }
  set (once := node_of (keyboard_loop_once key t r self)).
  assert (∀ k, k ∈ pressed_keys once → ¬ (key ∈ movement_keys ∧ k = key) →
               stale once t k = false) as Hfresh.
  { intros k Hin Hnot. apply held_after_call in Hin as [?|[Hin Hst]]; [done| |done].
    unfold stale, once. rewrite last_seen_after_call by done.
    rewrite decide_False by done. rewrite decide_False by (intros [_ ?]; congruence).
    exact Hst. }
  apply Node_eq.
  - apply set_eq. intros k. rewrite held_after_call by done.
    split; [intros [Hk|[Hin _]]; [|done]|].
    + apply held_after_call; [done|]. by left.
    + intros Hin. destruct (decide (key ∈ movement_keys ∧ k = key)); [by left|].
      right. split; [done|]. by apply Hfresh.
  - apply map_eq. intros k. rewrite last_seen_after_call by done.
    destruct (decide (key ∈ movement_keys ∧ k = key)) as [Hk|Hk].
    + unfold once. rewrite last_seen_after_call by done. by rewrite decide_True.
    + case_decide as Hst; [|done]. destruct Hst as [Hin Hst].
      rewrite (Hfresh _ Hin Hk) in Hst. discriminate.
  - rewrite velocity_after_call by done.
    destruct (speed_after_call key t r' once) as [Hs _]. rewrite (Hs Hl Hr).
    unfold once at 3. rewrite velocity_after_call by done. fold once.
    f_equal. apply set_eq. intros k. rewrite held_after_call by done.
    split; [intros [Hk|[Hin _]]; [|done]|].
    + apply held_after_call; [done|]. by left.
    + intros Hin. destruct (decide (key ∈ movement_keys ∧ k = key)); [by left|].
      right. split; [done|]. by apply Hfresh.
  - by destruct (speed_after_call key t r' once) as [_ ->].
  - destruct (speed_after_call key t r' once) as [Hs _]. by apply Hs.
Qed.

Lemma repeated_call_changes_nothing_witness :
  node_of (keyboard_loop_once "a" F64.one false
             (node_of (keyboard_loop_once "a" F64.one true holding_w)))
  = node_of (keyboard_loop_once "a" F64.one true holding_w).
Proof. apply repeated_call_changes_nothing; discriminate. Defined.

(** ** Each key is tracked on its own *)

Lemma entries_match_after_call key t r (s : Node) :
  key ≠ ctrl_c →
  (∀ k, is_Some (key_last_seen s !! k) ↔ k ∈ pressed_keys s) →
  ∀ k, is_Some (key_last_seen (node_of (keyboard_loop_once key t r s)) !! k)
       ↔ k ∈ pressed_keys (node_of (keyboard_loop_once key t r s)).
Proof.
  intros Hc Hdom k. rewrite last_seen_after_call, held_after_call by done.
  rewrite <- Hdom.
  destruct (decide (key ∈ movement_keys ∧ k = key)) as [Hk|Hk]; [by split; eauto|].
  destruct (stale s t k) eqn:Hst.
  - case_decide as Hd.
    + split; [by intros []|]. intros [?|[_ ?]]; done.
    + rewrite <- Hdom in Hd. split; [tauto|]. intros [?|[? ?]]; done.
  - rewrite decide_False by (intros [_ ?]; discriminate). tauto.
Qed.

Lemma track_step_after_call (it : iteration) (s : Node) (k : string) :
  it_key it ≠ ctrl_c →
  (∀ k, is_Some (key_last_seen s !! k) ↔ k ∈ pressed_keys s) →
  key_last_seen (node_of (keyboard_loop_once (it_key it) (it_time it) (it_ready it) s)) !! k
  = track_step k (key_last_seen s !! k) it.
Proof.
  intros Hc Hdom. rewrite last_seen_after_call by done. unfold track_step, stale.
  pose proof (Hdom k) as Hk.
  destruct (key_last_seen s !! k) as [seen|] eqn:Hl.
  - assert (k ∈ pressed_keys s) as Hin by (apply Hk; eauto).
    destruct (F64.gt (F64.sub (it_time it) seen) F64.c0_15) eqn:Hgt;
      repeat case_decide; try done; exfalso; destruct_and?; subst;
      intuition (auto; congruence).
  - assert (k ∉ pressed_keys s) as Hin by (intros [? ?]%Hk; discriminate).
    repeat case_decide; try done; exfalso; destruct_and?; subst;
      intuition (auto; congruence).
Qed.

Lemma track_run (its : list iteration) (s : Node) (k : string) :
  Forall (λ it, it_key it ≠ ctrl_c) its →
  (∀ k, is_Some (key_last_seen s !! k) ↔ k ∈ pressed_keys s) →
  key_last_seen (node_of (loop its s)) !! k = foldl (track_step k) (key_last_seen s !! k) its
  ∧ (∀ k, is_Some (key_last_seen (node_of (loop its s)) !! k)
          ↔ k ∈ pressed_keys (node_of (loop its s))).
Proof.
  intros Hok. revert s. induction Hok as [|it its Hkey _ IH]; intros s Hdom; [done|].
  destruct (loop_cons_run it its s) as (trw & _ & ->).
  destruct (handle_key_returns (it_key it) (it_time it) (it_ready it) s Hkey)
    as (s1 & tr & Hk).
  pose proof (track_step_after_call it s k Hkey Hdom) as Hstep.
  pose proof (entries_match_after_call _ (it_time it) (it_ready it) s Hkey Hdom) as Hdom1.
  rewrite (keyboard_loop_once_returned _ _ _ _ _ _ Hk) in *.
  cbn [completion_of node_of fst snd] in *.
  destruct (IH _ Hdom1) as [IH1 IH2]. split; [|exact IH2].
  rewrite IH1. cbn [foldl]. by rewrite Hstep.
Qed.

(** X15: in a run from a fresh node in which Ctrl+C is never read, the
    last-seen entry of a key is what following that key alone through the
    iterations gives, and the key is held exactly when it has such an entry:
    what is read or released for the other keys has no effect on it. *)
Theorem key_tracked_on_its_own (its : list iteration) (k : string) :
  Forall (λ it, it_key it ≠ ctrl_c) its →
  key_last_seen (after its) !! k = track k its
  ∧ (k ∈ pressed_keys (after its) ↔ is_Some (track k its)).
Proof.
  intros Hok. unfold after, track.
  assert (∀ k, is_Some (key_last_seen KeyboardControlNode !! k)
               ↔ k ∈ pressed_keys KeyboardControlNode) as Hdom.
  { intros k0. split; [intros [? Hv]; discriminate Hv|by intros ?%not_elem_of_empty]. }
  destruct (track_run its KeyboardControlNode k Hok Hdom) as [Hl Hin].
  split; [exact Hl|]. by rewrite <- Hin, Hl.
Qed.

Lemma key_tracked_on_its_own_witness :
  key_last_seen (after [poll "s" F64.zero; poll "w" F64.one]) !! "s" = None
  ∧ key_last_seen (after [poll "s" F64.zero; poll "w" F64.one]) !! "w" = Some F64.one.
Proof.
  split.
  - destruct (key_tracked_on_its_own [poll "s" F64.zero; poll "w" F64.one] "s") as [H _].
    + repeat apply List.Forall_cons; try apply List.Forall_nil; discriminate.
    + rewrite H. vm_compute. reflexivity.
  - destruct (key_tracked_on_its_own [poll "s" F64.zero; poll "w" F64.one] "w") as [H _].
    + repeat apply List.Forall_cons; try apply List.Forall_nil; discriminate.
    + rewrite H. vm_compute. reflexivity.
Defined.
